(** * Geocoding pipeline of the address-list map component

    A shallow embedding of [src/app.component.ts]: the settings form
    ([saveSettings]), the retry resolver ([geocodeWithRetry]) and the batch
    runner ([startSearch], [stopSearch]).

    The component is an object with mutable fields whose methods suspend at
    [await]s.  It is modelled by explicit state passing: a [World] holds the
    component's fields, the browser's settings storage, a counter of the
    suspensions performed so far, the observable effects issued so far, and
    every earlier value of the fields.  The outside world is a triple of
    functions: what the geocoding provider answers to the call made at a given
    suspension, whether the user presses "stop" while that suspension is
    pending, and the JavaScript built-in [parseFloat].

    The methods of the search are given twice.  [Reentrant] has them with the
    other handlers of the page running while a method is suspended, the
    button starting a second search among them; the section [Pipeline] has
    them followed alone, and the two agree when nothing else runs
    ([alone_startSearch]). *)

From Stdlib Require Import String Ascii ZArith NArith Bool Floats Lia List.
Import ListNotations.

(** ** JavaScript strings: sequences of UTF-16 code units *)

Definition jsstring : Type := list N.

Module JsStr.

(** Code units of a source literal, given here as the UTF-8 bytes of a Rocq
    string (code points of the basic plane only). *)
Fixpoint lit (s : string) : jsstring :=
  match s with
  | EmptyString => []
  | String a rest =>
      let b := N_of_ascii a in
      if (b <? 128)%N then b :: lit rest
      else
        match rest with
        | EmptyString => []
        | String a2 rest2 =>
            let b2 := N.land (N_of_ascii a2) 63 in
            if (b <? 224)%N then
              N.lor (N.shiftl (N.land b 31) 6) b2 :: lit rest2
            else
              match rest2 with
              | EmptyString => []
              | String a3 rest3 =>
                  let b3 := N.land (N_of_ascii a3) 63 in
                  N.lor (N.shiftl (N.land b 15) 12) (N.lor (N.shiftl b2 6) b3)
                    :: lit rest3
              end
        end
  end.

Fixpoint eqb (s t : jsstring) : bool :=
  match s, t with
  | [], [] => true
  | a :: s', b :: t' => (a =? b)%N && eqb s' t'
  | _, _ => false
  end.

(** [s.length > 0], also the truthiness of a string. *)
Definition nonEmpty (s : jsstring) : bool := (0 <? length s)%nat.

(** ECMAScript WhiteSpace and LineTerminator code units, the ones
    [String.prototype.trim] strips. *)
Definition isWhiteSpace (c : N) : bool :=
  ((9 <=? c) && (c <=? 13) || (c =? 32) || (c =? 160) || (c =? 5760)
   || (8192 <=? c) && (c <=? 8202) || (c =? 8232) || (c =? 8233)
   || (c =? 8239) || (c =? 8287) || (c =? 12288) || (c =? 65279))%N.

Fixpoint trimStart (s : jsstring) : jsstring :=
  match s with
  | [] => []
  | c :: rest => if isWhiteSpace c then trimStart rest else s
  end.

Definition trim (s : jsstring) : jsstring :=
  rev (trimStart (rev (trimStart s))).

(** [s.split(sep)] for a one-unit separator; the empty string gives one
    empty piece. *)
Fixpoint split (sep : N) (s : jsstring) : list jsstring :=
  match s with
  | [] => [[]]
  | c :: rest =>
      if (c =? sep)%N then [] :: split sep rest
      else
        match split sep rest with
        | piece :: pieces => (c :: piece) :: pieces
        | [] => [[c]]
        end
  end.

Fixpoint startsWith (s prefix : jsstring) : bool :=
  match prefix, s with
  | [], _ => true
  | p :: prefix', c :: s' => (p =? c)%N && startsWith s' prefix'
  | _ :: _, [] => false
  end.

Fixpoint includes (s sub : jsstring) : bool :=
  startsWith s sub
  || match s with
     | [] => false
     | _ :: s' => includes s' sub
     end.

(** [pieces.join(sep)] for pieces that are strings. *)
Fixpoint join (sep : jsstring) (pieces : list jsstring) : jsstring :=
  match pieces with
  | [] => []
  | [piece] => piece
  | piece :: rest => piece ++ sep ++ join sep rest
  end.

Definition newline : N := 10.
Definition comma : N := 44.

End JsStr.

(** ** Data of the component *)

(** [interface AppSettings].  [retryCount] is an integer-valued JavaScript
    number; a [NaN] count makes both comparisons of the retry loop false, as a
    negative count does. *)
Record AppSettings : Type := {
  apiKey : jsstring;
  retryCount : Z;
  retryDelays : list float
}.

(** The retry loop runs for [attempt = 0, ..., retryCount]: the number of
    attempts it allows, the total its log messages print as
    [retryCount + 1]. *)
Definition maxAttempts (s : AppSettings) : Z := retryCount s + 1.

(** The first geo object of a geocoding result, as far as the component reads
    it: [geometry.getCoordinates()] and [getAddressLine()]. *)
Record GeoObject : Type := {
  coordinates : list float;
  addressLine : jsstring
}.

(** What [addPlacemark] adds to the collection. *)
Record Placemark : Type := {
  placemarkCoords : list float;
  placemarkIndex : nat;
  originalAddress : jsstring;
  foundAddress : jsstring
}.

(** A value the provider's promise rejects with: [status] and [message] are
    the two properties the component inspects, either may be absent. *)
Record ProviderError : Type := {
  status : option Z;
  message : option jsstring
}.

(** Outcome of one [ymaps.geocode] promise: [geoObjects.get(0)], or a
    rejection. *)
Inductive Reply : Type :=
| Resolved (firstGeoObject : option GeoObject)
| Rejected (error : ProviderError).

(** Values thrown inside the pipeline. *)
Inductive Thrown : Type :=
| Null
| ErrorObject (text : jsstring)
| ProviderFailure (error : ProviderError).

(** The fields of [AppComponent]; [geoObjectsCollection] is the content of the
    map's collection. *)
Record Component : Type := {
  addressesInput : jsstring;
  isSearching : bool;
  foundAddressesCount : nat;
  totalAddressesCount : nat;
  notFoundAddresses : list jsstring;
  mapError : option jsstring;
  mapInitialized : bool;
  isSettingsOpen : bool;
  settings : AppSettings;
  tempApiKey : jsstring;
  tempRetryCount : Z;
  tempRetryDelays : jsstring;
  geoObjectsCollection : list Placemark;
  searchCancelled : bool;
  yandexMapsScriptLoaded : bool
}.

Definition set_isSearching (v : bool) (c : Component) : Component :=
  {| addressesInput := addressesInput c; isSearching := v; foundAddressesCount :=
     foundAddressesCount c; totalAddressesCount := totalAddressesCount c; notFoundAddresses
     := notFoundAddresses c; mapError := mapError c; mapInitialized := mapInitialized c;
     isSettingsOpen := isSettingsOpen c; settings := settings c; tempApiKey := tempApiKey c;
     tempRetryCount := tempRetryCount c; tempRetryDelays := tempRetryDelays c;
     geoObjectsCollection := geoObjectsCollection c; searchCancelled := searchCancelled c;
     yandexMapsScriptLoaded := yandexMapsScriptLoaded c |}.

Definition set_foundAddressesCount (v : nat) (c : Component) : Component :=
  {| addressesInput := addressesInput c; isSearching := isSearching c; foundAddressesCount
     := v; totalAddressesCount := totalAddressesCount c; notFoundAddresses :=
     notFoundAddresses c; mapError := mapError c; mapInitialized := mapInitialized c;
     isSettingsOpen := isSettingsOpen c; settings := settings c; tempApiKey := tempApiKey c;
     tempRetryCount := tempRetryCount c; tempRetryDelays := tempRetryDelays c;
     geoObjectsCollection := geoObjectsCollection c; searchCancelled := searchCancelled c;
     yandexMapsScriptLoaded := yandexMapsScriptLoaded c |}.

Definition set_totalAddressesCount (v : nat) (c : Component) : Component :=
  {| addressesInput := addressesInput c; isSearching := isSearching c; foundAddressesCount
     := foundAddressesCount c; totalAddressesCount := v; notFoundAddresses :=
     notFoundAddresses c; mapError := mapError c; mapInitialized := mapInitialized c;
     isSettingsOpen := isSettingsOpen c; settings := settings c; tempApiKey := tempApiKey c;
     tempRetryCount := tempRetryCount c; tempRetryDelays := tempRetryDelays c;
     geoObjectsCollection := geoObjectsCollection c; searchCancelled := searchCancelled c;
     yandexMapsScriptLoaded := yandexMapsScriptLoaded c |}.

Definition set_notFoundAddresses (v : list jsstring) (c : Component) : Component :=
  {| addressesInput := addressesInput c; isSearching := isSearching c; foundAddressesCount
     := foundAddressesCount c; totalAddressesCount := totalAddressesCount c;
     notFoundAddresses := v; mapError := mapError c; mapInitialized := mapInitialized c;
     isSettingsOpen := isSettingsOpen c; settings := settings c; tempApiKey := tempApiKey c;
     tempRetryCount := tempRetryCount c; tempRetryDelays := tempRetryDelays c;
     geoObjectsCollection := geoObjectsCollection c; searchCancelled := searchCancelled c;
     yandexMapsScriptLoaded := yandexMapsScriptLoaded c |}.

Definition set_mapError (v : option jsstring) (c : Component) : Component :=
  {| addressesInput := addressesInput c; isSearching := isSearching c; foundAddressesCount
     := foundAddressesCount c; totalAddressesCount := totalAddressesCount c;
     notFoundAddresses := notFoundAddresses c; mapError := v; mapInitialized :=
     mapInitialized c; isSettingsOpen := isSettingsOpen c; settings := settings c;
     tempApiKey := tempApiKey c; tempRetryCount := tempRetryCount c; tempRetryDelays :=
     tempRetryDelays c; geoObjectsCollection := geoObjectsCollection c; searchCancelled :=
     searchCancelled c; yandexMapsScriptLoaded := yandexMapsScriptLoaded c |}.

Definition set_isSettingsOpen (v : bool) (c : Component) : Component :=
  {| addressesInput := addressesInput c; isSearching := isSearching c; foundAddressesCount
     := foundAddressesCount c; totalAddressesCount := totalAddressesCount c;
     notFoundAddresses := notFoundAddresses c; mapError := mapError c; mapInitialized :=
     mapInitialized c; isSettingsOpen := v; settings := settings c; tempApiKey := tempApiKey
     c; tempRetryCount := tempRetryCount c; tempRetryDelays := tempRetryDelays c;
     geoObjectsCollection := geoObjectsCollection c; searchCancelled := searchCancelled c;
     yandexMapsScriptLoaded := yandexMapsScriptLoaded c |}.

Definition set_settings (v : AppSettings) (c : Component) : Component :=
  {| addressesInput := addressesInput c; isSearching := isSearching c; foundAddressesCount
     := foundAddressesCount c; totalAddressesCount := totalAddressesCount c;
     notFoundAddresses := notFoundAddresses c; mapError := mapError c; mapInitialized :=
     mapInitialized c; isSettingsOpen := isSettingsOpen c; settings := v; tempApiKey :=
     tempApiKey c; tempRetryCount := tempRetryCount c; tempRetryDelays := tempRetryDelays c;
     geoObjectsCollection := geoObjectsCollection c; searchCancelled := searchCancelled c;
     yandexMapsScriptLoaded := yandexMapsScriptLoaded c |}.

Definition set_geoObjectsCollection (v : list Placemark) (c : Component) : Component :=
  {| addressesInput := addressesInput c; isSearching := isSearching c; foundAddressesCount
     := foundAddressesCount c; totalAddressesCount := totalAddressesCount c;
     notFoundAddresses := notFoundAddresses c; mapError := mapError c; mapInitialized :=
     mapInitialized c; isSettingsOpen := isSettingsOpen c; settings := settings c;
     tempApiKey := tempApiKey c; tempRetryCount := tempRetryCount c; tempRetryDelays :=
     tempRetryDelays c; geoObjectsCollection := v; searchCancelled := searchCancelled c;
     yandexMapsScriptLoaded := yandexMapsScriptLoaded c |}.

Definition set_searchCancelled (v : bool) (c : Component) : Component :=
  {| addressesInput := addressesInput c; isSearching := isSearching c; foundAddressesCount
     := foundAddressesCount c; totalAddressesCount := totalAddressesCount c;
     notFoundAddresses := notFoundAddresses c; mapError := mapError c; mapInitialized :=
     mapInitialized c; isSettingsOpen := isSettingsOpen c; settings := settings c;
     tempApiKey := tempApiKey c; tempRetryCount := tempRetryCount c; tempRetryDelays :=
     tempRetryDelays c; geoObjectsCollection := geoObjectsCollection c; searchCancelled :=
     v; yandexMapsScriptLoaded := yandexMapsScriptLoaded c |}.

Definition set_tempApiKey (v : jsstring) (c : Component) : Component :=
  {| addressesInput := addressesInput c; isSearching := isSearching c; foundAddressesCount
     := foundAddressesCount c; totalAddressesCount := totalAddressesCount c;
     notFoundAddresses := notFoundAddresses c; mapError := mapError c; mapInitialized :=
     mapInitialized c; isSettingsOpen := isSettingsOpen c; settings := settings c;
     tempApiKey := v; tempRetryCount := tempRetryCount c; tempRetryDelays := tempRetryDelays
     c; geoObjectsCollection := geoObjectsCollection c; searchCancelled := searchCancelled
     c; yandexMapsScriptLoaded := yandexMapsScriptLoaded c |}.

Definition set_tempRetryCount (v : Z) (c : Component) : Component :=
  {| addressesInput := addressesInput c; isSearching := isSearching c; foundAddressesCount
     := foundAddressesCount c; totalAddressesCount := totalAddressesCount c;
     notFoundAddresses := notFoundAddresses c; mapError := mapError c; mapInitialized :=
     mapInitialized c; isSettingsOpen := isSettingsOpen c; settings := settings c;
     tempApiKey := tempApiKey c; tempRetryCount := v; tempRetryDelays := tempRetryDelays c;
     geoObjectsCollection := geoObjectsCollection c; searchCancelled := searchCancelled c;
     yandexMapsScriptLoaded := yandexMapsScriptLoaded c |}.

Definition set_tempRetryDelays (v : jsstring) (c : Component) : Component :=
  {| addressesInput := addressesInput c; isSearching := isSearching c; foundAddressesCount
     := foundAddressesCount c; totalAddressesCount := totalAddressesCount c;
     notFoundAddresses := notFoundAddresses c; mapError := mapError c; mapInitialized :=
     mapInitialized c; isSettingsOpen := isSettingsOpen c; settings := settings c;
     tempApiKey := tempApiKey c; tempRetryCount := tempRetryCount c; tempRetryDelays := v;
     geoObjectsCollection := geoObjectsCollection c; searchCancelled := searchCancelled c;
     yandexMapsScriptLoaded := yandexMapsScriptLoaded c |}.

(** ** Literals of the source *)

Definition GEOCODE_DELAY_MS : Z := 200.

Definition msgMapNotReady : jsstring :=
  JsStr.lit "Карта еще не инициализирована. Пожалуйста, подождите."%string.
Definition msgCancelled : jsstring :=
  JsStr.lit "Поиск отменён пользователем"%string.
Definition msgBadApiKey : jsstring :=
  JsStr.lit "Неверный API ключ. Откройте настройки и проверьте ключ."%string.
Definition msgBadDelays : jsstring :=
  JsStr.lit
    "Ошибка: задержки должны быть положительными числами, разделёнными запятыми"%string.
Definition msgNoApiKey : jsstring :=
  JsStr.lit "Ошибка: введите API ключ Яндекс.Карт"%string.
Definition msgKeyChanged : jsstring :=
  JsStr.lit "API ключ изменён. Страница будет перезагружена."%string.

Definition msgYmapsTimeout : jsstring :=
  JsStr.lit "Не удалось загрузить API Яндекс Карт. Проверьте, что вы заменили "%string
  ++ [34%N] ++ JsStr.lit "YOUR_YANDEX_MAPS_API_KEY"%string ++ [34%N]
  ++ JsStr.lit " в index.html и попробуйте обновить страницу."%string.

(** ** Observable effects *)

Inductive Effect : Type :=
| Geocode (address : jsstring) (bounded : bool)
    (** [ymaps.geocode(address, {boundedBy})] when [bounded], else
        [ymaps.geocode(address)] *)
| Backoff (delaySeconds : option float)
    (** the timer of [delaySeconds * 1000] ms between two attempts; [None] is
        [undefined], read outside the array *)
| Pause (ms : Z)
    (** the timer between two addresses *)
| Alert (text : jsstring)
| WarnRetry (address : jsstring) (attempt : Z) (delaySeconds : option float)
| ErrorExhausted (address : jsstring) (lastError : Thrown)
| LogStopped
| WarnNotFound (address : jsstring)
| ErrorGeocoding (address : jsstring) (error : Thrown)
| SetBounds
| Reload
| LoadYandexMapsScript.

(** ** Worlds *)

Record World : Type := {
  app : Component;
  localStorage : option AppSettings;
      (** the record whose JSON text is kept under the settings key *)
  clock : nat;
      (** number of suspensions so far *)
  effects : list Effect;
      (** in the order issued *)
  past : list Component
      (** earlier values of [app], latest first *)
}.

(** Every value the fields have had up to now. *)
Definition states (w : World) : list Component := app w :: past w.

Definition modifyW (f : Component -> Component) (w : World) : World :=
  {| app := f (app w); localStorage := localStorage w; clock := clock w;
     effects := effects w; past := app w :: past w |}.

Definition emitW (e : Effect) (w : World) : World :=
  {| app := app w; localStorage := localStorage w; clock := clock w;
     effects := effects w ++ [e]; past := past w |}.

Definition tickW (w : World) : World :=
  {| app := app w; localStorage := localStorage w; clock := S (clock w);
     effects := effects w; past := past w |}.

Definition storeW (s : AppSettings) (w : World) : World :=
  {| app := app w; localStorage := Some s; clock := clock w;
     effects := effects w; past := past w |}.

(** *** What is kept under the settings key *)

(** A number as [JSON.stringify] writes it: one that is not finite ([NaN],
    [Infinity]) is written as [null], here [None]. *)
Definition jsonNumber (n : float) : option float :=
  if PrimFloat.is_finite n then Some n else None.

(** The value of the text that [JSON.stringify] writes for a settings record,
    which is the value [JSON.parse] reads back from it. *)
Record StoredSettings : Type := {
  storedApiKey : jsstring;
  storedRetryCount : Z;
  storedRetryDelays : list (option float)
}.

Definition stringify (s : AppSettings) : StoredSettings :=
  {| storedApiKey := apiKey s;
     storedRetryCount := retryCount s;
     storedRetryDelays := map jsonNumber (retryDelays s) |}.

(** The value kept under the settings key. *)
Definition persisted (w : World) : option StoredSettings :=
  option_map stringify (localStorage w).

(** ** Control: state passing with exceptions *)

Inductive Completion (A : Type) : Type :=
| Normal (value : A)
| Abrupt (thrown : Thrown).
Arguments Normal {A} value.
Arguments Abrupt {A} thrown.

Definition M (A : Type) : Type := World -> Completion A * World.

Definition ret {A} (a : A) : M A := fun w => (Normal a, w).

Definition throw {A} (t : Thrown) : M A := fun w => (Abrupt t, w).

Definition bind {A B} (m : M A) (k : A -> M B) : M B :=
  fun w =>
    match m w with
    | (Normal a, w1) => k a w1
    | (Abrupt t, w1) => (Abrupt t, w1)
    end.

Definition tryCatch {A} (m : M A) (handler : Thrown -> M A) : M A :=
  fun w =>
    match m w with
    | (Normal a, w1) => (Normal a, w1)
    | (Abrupt t, w1) => handler t w1
    end.

Declare Scope pipeline_scope.
Delimit Scope pipeline_scope with pipeline.
Notation "x <- m ;; k" := (bind m (fun x => k))
  (at level 61, m at next level, right associativity) : pipeline_scope.
Notation "m ;; k" := (bind m (fun _ => k))
  (at level 61, right associativity) : pipeline_scope.
Open Scope pipeline_scope.

Definition gets {A} (field : Component -> A) : M A :=
  fun w => (Normal (field (app w)), w).

Definition modify (f : Component -> Component) : M unit :=
  fun w => (Normal tt, modifyW f w).

Definition emit (e : Effect) : M unit :=
  fun w => (Normal tt, emitW e w).

Definition now : M nat :=
  fun w => (Normal (clock w), w).

Definition tick : M unit :=
  fun w => (Normal tt, tickW w).

(** [localStorage.setItem(SETTINGS_STORAGE_KEY, JSON.stringify(s))] *)
Definition store (s : AppSettings) : M unit :=
  fun w => (Normal tt, storeW s w).

(** The world a computation ends in, and how it completes. *)
Definition run {A} (m : M A) (w : World) : World := snd (m w).
Definition result {A} (m : M A) (w : World) : Completion A := fst (m w).

(** ** Pure helpers of the methods *)

Definition truthy (s : option jsstring) : bool :=
  match s with
  | Some text => JsStr.nonEmpty text
  | None => false
  end.

Definition statusOf (error : Thrown) : option Z :=
  match error with
  | ProviderFailure e => status e
  | _ => None
  end.

Definition messageOf (error : Thrown) : option jsstring :=
  match error with
  | Null => None
  | ErrorObject text => Some text
  | ProviderFailure e => message e
  end.

Definition statusIs (code : Z) (error : Thrown) : bool :=
  match statusOf error with
  | Some s => (s =? code)%Z
  | None => false
  end.

Definition messageIncludes (sub : jsstring) (error : Thrown) : bool :=
  match messageOf error with
  | Some text => JsStr.includes text sub
  | None => false
  end.

(** The condition of the [if] in the [catch] of [geocodeWithRetry]. *)
Definition isApiKeyError (error : Thrown) : bool :=
  statusIs 401 error || statusIs 403 error
  || messageIncludes (JsStr.lit "Invalid key"%string) error
  || messageIncludes (JsStr.lit "API key"%string) error.

(** [array[i]] for an integer [i]: [undefined] outside the array. *)
Definition arrayGet {A} (array : list A) (i : Z) : option A :=
  if (i <? 0)%Z then None else nth_error array (Z.to_nat i).

(** [retryDelays[Math.min(attempt, retryDelays.length - 1)]] *)
Definition delayAfter (retryDelays : list float) (attempt : Z) : option float :=
  arrayGet retryDelays (Z.min attempt (Z.of_nat (length retryDelays) - 1)).

(** [!isNaN(n) && n > 0] *)
Definition positiveNumber (n : float) : bool :=
  negb (PrimFloat.is_nan n) && PrimFloat.ltb 0%float n.

(** The lines of the input that are left after trimming and dropping the
    empty ones. *)
Definition parseAddresses (input : jsstring) : list jsstring :=
  filter JsStr.nonEmpty (map JsStr.trim (JsStr.split JsStr.newline input)).

(** ** Sample environments *)

Definition serverError : ProviderError :=
  {| status := Some 500%Z; message := None |}.
Definition forbidden : ProviderError :=
  {| status := Some 403%Z; message := None |}.
Definition moscow : GeoObject :=
  {| coordinates := [55.75%float; 37.5%float];
     addressLine := JsStr.lit "Moscow"%string |}.

Definition alwaysFailing (_ : nat) (_ : jsstring) (_ : bool) : Reply :=
  Rejected serverError.
Definition alwaysForbidden (_ : nat) (_ : jsstring) (_ : bool) : Reply :=
  Rejected forbidden.
Definition alwaysEmpty (_ : nat) (_ : jsstring) (_ : bool) : Reply :=
  Resolved None.
Definition alwaysFound (_ : nat) (_ : jsstring) (_ : bool) : Reply :=
  Resolved (Some moscow).
Definition neverStops (_ : nat) : bool := false.
Definition stopsAt (t : nat) (n : nat) : bool := (n =? t)%nat.

(** Stand-in for [parseFloat] on the texts of the examples. *)
Definition sampleParseFloat (s : jsstring) : float :=
  if JsStr.eqb s (JsStr.lit "1"%string) then 1%float
  else if JsStr.eqb s (JsStr.lit "2"%string) then 2%float
  else if JsStr.eqb s (JsStr.lit "0"%string) then 0%float
  else nan.

Definition defaultSettings : AppSettings :=
  {| apiKey := []; retryCount := 3; retryDelays := [1%float; 2%float; 4%float] |}.

(** The component as constructed. *)
Definition initialComponent : Component :=
  {| addressesInput := []; isSearching := false; foundAddressesCount := 0;
     totalAddressesCount := 0; notFoundAddresses := []; mapError := None;
     mapInitialized := false; isSettingsOpen := false; settings := defaultSettings;
     tempApiKey := []; tempRetryCount := 3; tempRetryDelays := JsStr.lit "1, 2, 4"%string;
     geoObjectsCollection := []; searchCancelled := false;
     yandexMapsScriptLoaded := false |}.

Definition initialWorld : World :=
  {| app := initialComponent; localStorage := None; clock := 0; effects := [];
     past := [] |}.

Definition addressA : jsstring := JsStr.lit "A"%string.
Definition addressB : jsstring := JsStr.lit "B"%string.

Definition onlyAFound (_ : nat) (address : jsstring) (_ : bool) : Reply :=
  if JsStr.eqb address addressA then Resolved (Some moscow) else Resolved None.
Definition othersFail (_ : nat) (address : jsstring) (_ : bool) : Reply :=
  if JsStr.eqb address addressA then Resolved (Some moscow)
  else Rejected serverError.
Definition failsTwice (t : nat) (_ : jsstring) (_ : bool) : Reply :=
  if (t <? 4)%nat then Rejected serverError else Resolved (Some moscow).

Definition sampleSettings : AppSettings :=
  {| apiKey := JsStr.lit "key"%string; retryCount := 2;
     retryDelays := [1%float; 2%float] |}.

(** A component whose map is ready, with the input [A], an empty line, [B]. *)
Definition readyComponent : Component :=
  {| addressesInput := addressA ++ [JsStr.newline; JsStr.newline] ++ addressB;
     isSearching := false; foundAddressesCount := 0;
     totalAddressesCount := 0; notFoundAddresses := []; mapError := None;
     mapInitialized := true; isSettingsOpen := false; settings := sampleSettings;
     tempApiKey := JsStr.lit "key"%string; tempRetryCount := 2;
     tempRetryDelays := JsStr.lit "1, 2"%string;
     geoObjectsCollection := []; searchCancelled := false;
     yandexMapsScriptLoaded := true |}.

Definition readyWorld : World :=
  {| app := readyComponent; localStorage := Some sampleSettings; clock := 0;
     effects := []; past := [] |}.

(** The settings form holding a delays text without a positive number. *)
Definition badDelaysWorld : World :=
  {| app :=
       {| addressesInput := []; isSearching := false; foundAddressesCount := 0;
          totalAddressesCount := 0; notFoundAddresses := []; mapError := None;
          mapInitialized := true; isSettingsOpen := true; settings := sampleSettings;
          tempApiKey := JsStr.lit "key"%string; tempRetryCount := 2;
          tempRetryDelays := JsStr.lit "0, x"%string;
          geoObjectsCollection := []; searchCancelled := false;
          yandexMapsScriptLoaded := true |};
     localStorage := Some sampleSettings; clock := 0; effects := []; past := [] |}.

(** [parseFloat] on a text whose value is beyond the largest number:
    [parseFloat("1e999")] is [Infinity]. *)
Definition overflowingParseFloat (s : jsstring) : float :=
  if JsStr.eqb s (JsStr.lit "1e999"%string) then infinity
  else sampleParseFloat s.

(** The settings form holding the delays text [1e999]. *)
Definition overflowWorld : World :=
  {| app :=
       {| addressesInput := []; isSearching := false; foundAddressesCount := 0;
          totalAddressesCount := 0; notFoundAddresses := []; mapError := None;
          mapInitialized := true; isSettingsOpen := true; settings := sampleSettings;
          tempApiKey := JsStr.lit "key"%string; tempRetryCount := 2;
          tempRetryDelays := JsStr.lit "1e999"%string;
          geoObjectsCollection := []; searchCancelled := false;
          yandexMapsScriptLoaded := true |};
     localStorage := Some sampleSettings; clock := 0; effects := []; past := [] |}.

(** A ready component whose input is [A] between spaces, a line of a space
    and a tab, and [B] followed by a carriage return. *)
Definition spacedWorld : World :=
  {| app :=
       {| addressesInput :=
            [32%N] ++ addressA ++ [32%N; JsStr.newline; 32%N; 9%N; JsStr.newline]
            ++ addressB ++ [13%N];
          isSearching := false; foundAddressesCount := 0;
          totalAddressesCount := 0; notFoundAddresses := []; mapError := None;
          mapInitialized := true; isSettingsOpen := false; settings := sampleSettings;
          tempApiKey := JsStr.lit "key"%string; tempRetryCount := 2;
          tempRetryDelays := JsStr.lit "1, 2"%string;
          geoObjectsCollection := []; searchCancelled := false;
          yandexMapsScriptLoaded := true |};
     localStorage := Some sampleSettings; clock := 0; effects := []; past := [] |}.

(** Stand-in for the conversion of a number to a string on the numbers of
    the examples. *)
Definition sampleNumberToString (n : float) : jsstring :=
  if PrimFloat.eqb n 1%float then JsStr.lit "1"%string
  else if PrimFloat.eqb n 2%float then JsStr.lit "2"%string
  else JsStr.lit "0"%string.

(** The settings form holding no API key. *)
Definition blankKeyWorld : World :=
  {| app :=
       {| addressesInput := []; isSearching := false; foundAddressesCount := 0;
          totalAddressesCount := 0; notFoundAddresses := []; mapError := None;
          mapInitialized := false; isSettingsOpen := true;
          settings := defaultSettings;
          tempApiKey := JsStr.lit "  "%string; tempRetryCount := 3;
          tempRetryDelays := JsStr.lit "1, 2"%string;
          geoObjectsCollection := []; searchCancelled := false;
          yandexMapsScriptLoaded := false |};
     localStorage := None; clock := 0; effects := []; past := [] |}.

(** The settings form holding a key that replaces the one in use. *)
Definition newKeyWorld : World :=
  {| app :=
       {| addressesInput := []; isSearching := false; foundAddressesCount := 0;
          totalAddressesCount := 0; notFoundAddresses := []; mapError := None;
          mapInitialized := true; isSettingsOpen := true; settings := sampleSettings;
          tempApiKey := JsStr.lit " other "%string; tempRetryCount := 1;
          tempRetryDelays := JsStr.lit "2,x, 1"%string;
          geoObjectsCollection := []; searchCancelled := false;
          yandexMapsScriptLoaded := true |};
     localStorage := Some sampleSettings; clock := 0; effects := []; past := [] |}.

(** A ready component that still shows the error of an earlier search. *)
Definition staleErrorWorld : World :=
  {| app := set_mapError (Some msgBadApiKey) readyComponent;
     localStorage := Some sampleSettings; clock := 0; effects := []; past := [] |}.

(** A ready component that still shows the error of an earlier search, with
    the input [A], [B], [A]. *)
Definition staleErrorLongWorld : World :=
  {| app :=
       {| addressesInput :=
            addressA ++ [JsStr.newline] ++ addressB ++ [JsStr.newline] ++ addressA;
          isSearching := false; foundAddressesCount := 0;
          totalAddressesCount := 0; notFoundAddresses := [];
          mapError := Some msgBadApiKey;
          mapInitialized := true; isSettingsOpen := false; settings := sampleSettings;
          tempApiKey := JsStr.lit "key"%string; tempRetryCount := 2;
          tempRetryDelays := JsStr.lit "1, 2"%string;
          geoObjectsCollection := []; searchCancelled := false;
          yandexMapsScriptLoaded := true |};
     localStorage := Some sampleSettings; clock := 0; effects := []; past := [] |}.

(** A ready component whose retry count is negative. *)
Definition noAttemptWorld : World :=
  {| app :=
       set_settings
         {| apiKey := JsStr.lit "key"%string; retryCount := -1;
            retryDelays := [1%float] |}
         readyComponent;
     localStorage := None; clock := 0; effects := []; past := [] |}.

(** ** The methods *)

(** *** Methods without an [await] *)

(** [private stopSearch()] *)
Definition stopSearch : M unit :=
  modify (set_searchCancelled true);;
  modify (set_isSearching false).

(** Number of passes of [for (attempt = 0; attempt <= retryCount; attempt++)]
    that start at [attempt]. *)
Definition iterationsFrom (retryCount attempt : Z) : nat :=
  Z.to_nat (retryCount - attempt + 1).

(** [private addPlacemark(coords, index, originalAddress, foundAddress)] *)
Definition addPlacemark (coords : list float) (index : nat)
    (original found : jsstring) : M unit :=
  let placemark :=
    {| placemarkCoords := coords; placemarkIndex := index;
       originalAddress := original; foundAddress := found |} in
  modify (fun c => set_geoObjectsCollection (geoObjectsCollection c ++ [placemark]) c).

(** *** The search among the other handlers of the page

    While a method waits at an [await], the page goes on handling events:
    each handler runs to its end before the method resumes.  Here a
    suspension lets the user press "stop" and then lets any other handlers
    run, the button pressed once more among them. *)

Module Reentrant.
Section Run.

(** The reply to the geocoding call made at a given suspension. *)
Variable provider : nat -> jsstring -> bool -> Reply.

(** Whether the user presses the button, which runs [stopSearch], while the
    given suspension is pending. *)
Variable userStops : nat -> bool.

(** What the other handlers do that run, after that, while the given
    suspension is still pending. *)
Variable meanwhile : nat -> M unit.

(** One [await]: control returns after whatever ran meanwhile; what a
    handler throws does not reach the waiting method. *)
Definition suspend : M unit :=
  t <- now;;
  tick;;
  (if userStops t then stopSearch else ret tt);;
  tryCatch (meanwhile t) (fun _ => ret tt).

(** [await ymaps.geocode(...)] followed by [geoObjects.get(0)] *)
Definition geocode (address : jsstring) (bounded : bool) : M (option GeoObject) :=
  t <- now;;
  emit (Geocode address bounded);;
  suspend;;
  match provider t address bounded with
  | Resolved firstGeoObject => ret firstGeoObject
  | Rejected error => throw (ProviderFailure error)
  end.

(** [await new Promise(resolve => setTimeout(resolve, ...))] *)
Definition sleep (timer : Effect) : M unit :=
  emit timer;; suspend.

(** The [try] block of [geocodeWithRetry]. *)
Definition lookup (address : jsstring) : M (option GeoObject) :=
  firstGeoObject <- geocode address true;;
  match firstGeoObject with
  | None => geocode address false
  | Some found => ret (Some found)
  end.

(** The [catch] block of [geocodeWithRetry]. *)
Definition onLookupError (address : jsstring) (retryCount : Z)
    (retryDelays : list float) (attempt : Z) (error : Thrown) : M unit :=
  if isApiKeyError error then
    modify (set_mapError (Some msgBadApiKey));;
    throw error
  else if (attempt <? retryCount)%Z then
    let delaySeconds := delayAfter retryDelays attempt in
    emit (WarnRetry address attempt delaySeconds);;
    sleep (Backoff delaySeconds)
  else ret tt.

(** The [for] loop of [geocodeWithRetry] from [attempt] on, and what follows
    it. *)
Fixpoint attemptsFrom (iterations : nat) (address : jsstring) (retryCount : Z)
    (retryDelays : list float) (attempt : Z) (lastError : Thrown)
    : M (option GeoObject) :=
  match iterations with
  | O =>
      emit (ErrorExhausted address lastError);;
      throw lastError
  | S iterations' =>
      cancelled <- gets searchCancelled;;
      if cancelled then throw (ErrorObject msgCancelled)
      else
        tryCatch (lookup address)
          (fun error =>
             onLookupError address retryCount retryDelays attempt error;;
             attemptsFrom iterations' address retryCount retryDelays
               (attempt + 1) error)
  end.

(** [private async geocodeWithRetry(address)] *)
Definition geocodeWithRetry (address : jsstring) : M (option GeoObject) :=
  current <- gets settings;;
  attemptsFrom (iterationsFrom (retryCount current) 0) address
    (retryCount current) (retryDelays current) 0 Null.

(** The [try]/[catch] statement in the loop of [startSearch]. *)
Definition processAddress (i : nat) (address : jsstring) : M bool :=
  tryCatch
    (firstGeoObject <- geocodeWithRetry address;;
     match firstGeoObject with
     | Some found =>
         addPlacemark (coordinates found) (i + 1) address (addressLine found);;
         modify (fun c => set_foundAddressesCount (foundAddressesCount c + 1) c);;
         ret false
     | None =>
         emit (WarnNotFound address);;
         modify (fun c => set_notFoundAddresses (notFoundAddresses c ++ [address]) c);;
         ret false
     end)
    (fun error =>
       emit (ErrorGeocoding address error);;
       modify (fun c => set_notFoundAddresses (notFoundAddresses c ++ [address]) c);;
       failure <- gets mapError;;
       if truthy failure then stopSearch;; ret true
       else ret false).

(** The [for] loop of [startSearch] over the addresses from index [i] on. *)
Fixpoint searchFrom (i : nat) (addresses : list jsstring) : M unit :=
  match addresses with
  | [] => ret tt
  | address :: rest =>
      cancelled <- gets searchCancelled;;
      if cancelled then emit LogStopped
      else
        leave <- processAddress i address;;
        if leave then ret tt
        else
          sleep (Pause GEOCODE_DELAY_MS);;
          searchFrom (S i) rest
  end.

(** [private async startSearch()] *)
Definition startSearch : M unit :=
  ready <- gets mapInitialized;;
  if negb ready then emit (Alert msgMapNotReady)
  else
    modify (set_isSearching true);;
    modify (set_searchCancelled false);;
    modify (set_geoObjectsCollection []);;
    modify (set_foundAddressesCount 0);;
    modify (set_notFoundAddresses []);;
    input <- gets addressesInput;;
    let addresses := parseAddresses input in
    modify (set_totalAddressesCount (length addresses));;
    if (length addresses =? 0)%nat then modify (set_isSearching false)
    else
      searchFrom 0 addresses;;
      placemarks <- gets geoObjectsCollection;;
      (if (0 <? length placemarks)%nat then emit SetBounds else ret tt);;
      modify (set_isSearching false).

End Run.
End Reentrant.

(** *** The search followed alone

    The same methods when nothing but the user's "stop" happens while they are
    suspended. *)

Section Pipeline.

(** The reply to the geocoding call made at a given suspension. *)
Variable provider : nat -> jsstring -> bool -> Reply.

(** Whether the user presses the button, which runs [stopSearch], while the
    given suspension is pending.  One run is followed: the button starting a
    second run while the first is suspended is not part of this
    environment; it is part of the one of [Reentrant]. *)
Variable userStops : nat -> bool.

(** The built-in [parseFloat]. *)
Variable parseFloat : jsstring -> float.

(** One [await]: control returns after whatever the user did meanwhile. *)
Definition suspend : M unit :=
  t <- now;;
  (if userStops t then stopSearch else ret tt);;
  tick.

(** [await ymaps.geocode(...)] followed by [geoObjects.get(0)] *)
Definition geocode (address : jsstring) (bounded : bool) : M (option GeoObject) :=
  t <- now;;
  emit (Geocode address bounded);;
  suspend;;
  match provider t address bounded with
  | Resolved firstGeoObject => ret firstGeoObject
  | Rejected error => throw (ProviderFailure error)
  end.

(** [await new Promise(resolve => setTimeout(resolve, ...))] *)
Definition sleep (timer : Effect) : M unit :=
  emit timer;; suspend.

(** The [try] block of [geocodeWithRetry]. *)
Definition lookup (address : jsstring) : M (option GeoObject) :=
  firstGeoObject <- geocode address true;;
  match firstGeoObject with
  | None => geocode address false
  | Some found => ret (Some found)
  end.

(** The [catch] block of [geocodeWithRetry]. *)
Definition onLookupError (address : jsstring) (retryCount : Z)
    (retryDelays : list float) (attempt : Z) (error : Thrown) : M unit :=
  if isApiKeyError error then
    modify (set_mapError (Some msgBadApiKey));;
    throw error
  else if (attempt <? retryCount)%Z then
    let delaySeconds := delayAfter retryDelays attempt in
    emit (WarnRetry address attempt delaySeconds);;
    sleep (Backoff delaySeconds)
  else ret tt.

(** The [for] loop of [geocodeWithRetry] from [attempt] on, and what follows
    it; [iterations] is the number of values of [attempt] left up to
    [retryCount]. *)
Fixpoint attemptsFrom (iterations : nat) (address : jsstring) (retryCount : Z)
    (retryDelays : list float) (attempt : Z) (lastError : Thrown)
    : M (option GeoObject) :=
  match iterations with
  | O =>
      emit (ErrorExhausted address lastError);;
      throw lastError
  | S iterations' =>
      cancelled <- gets searchCancelled;;
      if cancelled then throw (ErrorObject msgCancelled)
      else
        tryCatch (lookup address)
          (fun error =>
             onLookupError address retryCount retryDelays attempt error;;
             attemptsFrom iterations' address retryCount retryDelays
               (attempt + 1) error)
  end.

(** [private async geocodeWithRetry(address)] *)
Definition geocodeWithRetry (address : jsstring) : M (option GeoObject) :=
  current <- gets settings;;
  attemptsFrom (iterationsFrom (retryCount current) 0) address
    (retryCount current) (retryDelays current) 0 Null.

(** The [try]/[catch] statement in the loop of [startSearch]; the result
    tells whether the loop is left by [break]. *)
Definition processAddress (i : nat) (address : jsstring) : M bool :=
  tryCatch
    (firstGeoObject <- geocodeWithRetry address;;
     match firstGeoObject with
     | Some found =>
         addPlacemark (coordinates found) (i + 1) address (addressLine found);;
         modify (fun c => set_foundAddressesCount (foundAddressesCount c + 1) c);;
         ret false
     | None =>
         emit (WarnNotFound address);;
         modify (fun c => set_notFoundAddresses (notFoundAddresses c ++ [address]) c);;
         ret false
     end)
    (fun error =>
       emit (ErrorGeocoding address error);;
       modify (fun c => set_notFoundAddresses (notFoundAddresses c ++ [address]) c);;
       failure <- gets mapError;;
       if truthy failure then stopSearch;; ret true
       else ret false).

(** The [for] loop of [startSearch] over the addresses from index [i] on. *)
Fixpoint searchFrom (i : nat) (addresses : list jsstring) : M unit :=
  match addresses with
  | [] => ret tt
  | address :: rest =>
      cancelled <- gets searchCancelled;;
      if cancelled then emit LogStopped
      else
        leave <- processAddress i address;;
        if leave then ret tt
        else
          sleep (Pause GEOCODE_DELAY_MS);;
          searchFrom (S i) rest
  end.

(** [private async startSearch()] *)
Definition startSearch : M unit :=
  ready <- gets mapInitialized;;
  if negb ready then emit (Alert msgMapNotReady)
  else
    modify (set_isSearching true);;
    modify (set_searchCancelled false);;
    modify (set_geoObjectsCollection []);;
    modify (set_foundAddressesCount 0);;
    modify (set_notFoundAddresses []);;
    input <- gets addressesInput;;
    let addresses := parseAddresses input in
    modify (set_totalAddressesCount (length addresses));;
    if (length addresses =? 0)%nat then modify (set_isSearching false)
    else
      searchFrom 0 addresses;;
      placemarks <- gets geoObjectsCollection;;
      (if (0 <? length placemarks)%nat then emit SetBounds else ret tt);;
      modify (set_isSearching false).

(** [saveSettings()] *)
Definition parseDelays (text : jsstring) : list float :=
  filter positiveNumber
    (map (fun s => parseFloat (JsStr.trim s)) (JsStr.split JsStr.comma text)).

Definition saveSettings : M unit :=
  text <- gets tempRetryDelays;;
  let delays := parseDelays text in
  if (length delays =? 0)%nat then emit (Alert msgBadDelays)
  else
    key <- gets tempApiKey;;
    count <- gets tempRetryCount;;
    let newSettings :=
      {| apiKey := JsStr.trim key; retryCount := count; retryDelays := delays |} in
    if negb (JsStr.nonEmpty (apiKey newSettings)) then emit (Alert msgNoApiKey)
    else
      current <- gets settings;;
      let oldApiKey := apiKey current in
      let apiKeyChanged := negb (JsStr.eqb oldApiKey (apiKey newSettings)) in
      modify (set_settings newSettings);;
      store newSettings;;
      modify (set_isSettingsOpen false);;
      if apiKeyChanged && JsStr.nonEmpty oldApiKey then
        emit (Alert msgKeyChanged);;
        emit Reload
      else
        ready <- gets mapInitialized;;
        loaded <- gets yandexMapsScriptLoaded;;
        if negb ready && negb loaded then emit LoadYandexMapsScript
        else ret tt.


(** The conversion of a number to a string that [join] applies. *)
Variable numberToString : float -> jsstring.

(** [openSettings()] *)
Definition openSettings : M unit :=
  current <- gets settings;;
  modify (set_tempApiKey (apiKey current));;
  modify (set_tempRetryCount (retryCount current));;
  modify (set_tempRetryDelays
            (JsStr.join (JsStr.lit ", "%string)
               (map numberToString (retryDelays current))));;
  modify (set_isSettingsOpen true).

(** [closeSettings()] *)
Definition closeSettings : M unit :=
  modify (set_isSettingsOpen false).

(** [toggleSearch()], followed to the end of the search it starts. *)
Definition toggleSearch : M unit :=
  searching <- gets isSearching;;
  if searching then stopSearch else startSearch.

(** The button pressed once more while suspension [t0] is pending, with the
    search it starts, if it starts one, over before the suspended method
    resumes. *)
Definition pressedAgainAt (t0 t : nat) : M unit :=
  if (t =? t0)%nat then toggleSearch else ret tt.

(** Whether [typeof ymaps !== 'undefined' && ymaps.ready] holds at a
    suspension. *)
Variable ymapsReady : nat -> bool.

(** [private initializeMap()]; what it does to the world is left open. *)
Variable initializeMap : M unit.

(** The callback that [initializeMapWithRetry] hands to [setInterval], run
    at each of the next [firings] firings of the interval; [attempts] is the
    counter of the closure.  The result tells whether [clearInterval] was
    reached. *)
Fixpoint intervalFirings (firings attempts : nat) : M bool :=
  match firings with
  | O => ret false
  | S firings' =>
      tick;;
      t <- now;;
      if ymapsReady t then
        initializeMap;;
        ret true
      else if (30 <? attempts + 1)%nat then
        modify (set_mapError (Some msgYmapsTimeout));;
        ret true
      else intervalFirings firings' (attempts + 1)
  end.

(** [private initializeMapWithRetry()], followed over the next [firings]
    firings of its interval. *)
Definition initializeMapWithRetry (firings : nat) : M bool :=
  intervalFirings firings 0.


(** ** What a resolver call leaves alone *)

(** The fields [geocodeWithRetry] and the user's "stop" never write, and the
    cancellation flag, which they only ever raise. *)
Definition sameSession (c c' : Component) : Prop :=
  addressesInput c' = addressesInput c
  /\ foundAddressesCount c' = foundAddressesCount c
  /\ totalAddressesCount c' = totalAddressesCount c
  /\ notFoundAddresses c' = notFoundAddresses c
  /\ geoObjectsCollection c' = geoObjectsCollection c
  /\ settings c' = settings c
  /\ mapInitialized c' = mapInitialized c
  /\ (searchCancelled c = true -> searchCancelled c' = true).

(** [w'] comes after [w] by steps that respect [sameSession]. *)
Record during (w w' : World) : Prop := {
  during_app : sameSession (app w) (app w');
  during_past :
    exists newer, past w' = newer ++ past w /\ Forall (sameSession (app w)) newer;
  during_storage : localStorage w' = localStorage w;
  during_clock : clock w <= clock w';
  during_stop :
    forall t, clock w <= t < clock w' -> userStops t = true ->
              searchCancelled (app w') = true;
  during_effects : exists new, effects w' = effects w ++ new
}.

Definition quiet {A} (m : M A) : Prop := forall w, during w (run m w).

(** The [Geocode] effects of a log. *)
Definition calls (log : list Effect) : list (jsstring * bool) :=
  flat_map (fun e => match e with
                     | Geocode address bounded => [(address, bounded)]
                     | _ => []
                     end) log.

Definition isEmptyReply (r : Reply) : bool :=
  match r with
  | Resolved None => true
  | _ => false
  end.

(** The provider calls of one attempt that starts at suspension [t]. *)
Definition attemptCalls (address : jsstring) (t : nat) : list Effect :=
  Geocode address true
    :: (if isEmptyReply (provider t address true) then [Geocode address false] else []).

(** How the [try] block started at suspension [t] ends. *)
Definition attemptReply (address : jsstring) (t : nat) : Reply :=
  match provider t address true with
  | Resolved None => provider (S t) address false
  | reply => reply
  end.

(** ** The session of a batch run *)

(** [foundCount + len(notFound) <= total] *)
Definition sessionBound (c : Component) : Prop :=
  foundAddressesCount c + length (notFoundAddresses c) <= totalAddressesCount c.

(** The counters account for all addresses but [r] of them. *)
Definition pending (r : nat) (c : Component) : Prop :=
  foundAddressesCount c + length (notFoundAddresses c) + r = totalAddressesCount c.

(** The world of [startSearch] when it reaches its loop: the fields as the
    statements before the loop leave them. *)
Definition sessionStarted (w : World) : World :=
  modifyW
    (set_totalAddressesCount (length (parseAddresses (addressesInput (app w)))))
    (modifyW (set_notFoundAddresses [])
       (modifyW (set_foundAddressesCount 0)
          (modifyW (set_geoObjectsCollection [])
             (modifyW (set_searchCancelled false)
                (modifyW (set_isSearching true) w))))).

(** The statements of [startSearch] after its loop. *)
Definition finishSearch (w : World) : World :=
  modifyW (set_isSearching false)
    (if (0 <? length (geoObjectsCollection (app w)))%nat then emitW SetBounds w
     else w).

(** Time passes, the cancellation flag is never lowered, and a press of the
    button in between leaves it raised. *)
Record tracked (w w' : World) : Prop := {
  tracked_clock : clock w <= clock w';
  tracked_flag : searchCancelled (app w) = true -> searchCancelled (app w') = true;
  tracked_stop :
    forall t, clock w <= t < clock w' -> userStops t = true ->
              searchCancelled (app w') = true
}.

(** No handler but the user's "stop" runs while the search is suspended: in
    particular the button starts no other search. *)
Definition nothingElse (meanwhile : nat -> M unit) : Prop :=
  forall t (w : World), meanwhile t w = (Normal tt, w).

(** The addresses with the numbers their placemarks get, from [i + 1] on. *)
Definition numbered (i : nat) (addresses : list jsstring) : list (nat * jsstring) :=
  combine (seq (i + 1) (length addresses)) addresses.

(** Number and original address of each placemark. *)
Definition labels (placemarks : list Placemark) : list (nat * jsstring) :=
  map (fun p => (placemarkIndex p, originalAddress p)) placemarks.

(** Of the jobs that were processed, in order, those that were found (or
    those that were not), given each processed job's outcome. *)
Definition jobsWith (found : bool) (outcomes : list bool)
    (jobs : list (nat * jsstring)) : list (nat * jsstring) :=
  map snd (filter (fun job => Bool.eqb (fst job) found) (combine outcomes jobs)).

(** A line that holds nothing but white space, the empty line among them. *)
Definition blank (line : jsstring) : bool := forallb JsStr.isWhiteSpace line.

(** A string that does not begin with white space. *)
Definition headClean (s : jsstring) : Prop :=
  match s with
  | [] => True
  | c :: _ => JsStr.isWhiteSpace c = false
  end.

(** The delays of the [Backoff] timers of a log. *)
Definition timers (log : list Effect) : list (option float) :=
  flat_map (fun e => match e with
                     | Backoff delaySeconds => [delaySeconds]
                     | _ => []
                     end) log.

(** What a search never writes: the input, the settings, the stored settings,
    the settings form and the flags of the map; and [mapError], which it
    leaves as it is or sets to the API key message. *)
Record untouched (w w' : World) : Prop := {
  untouched_input : addressesInput (app w') = addressesInput (app w);
  untouched_settings : settings (app w') = settings (app w);
  untouched_storage : localStorage w' = localStorage w;
  untouched_key : tempApiKey (app w') = tempApiKey (app w);
  untouched_count : tempRetryCount (app w') = tempRetryCount (app w);
  untouched_delays : tempRetryDelays (app w') = tempRetryDelays (app w);
  untouched_dialog : isSettingsOpen (app w') = isSettingsOpen (app w);
  untouched_ready : mapInitialized (app w') = mapInitialized (app w);
  untouched_script :
    yandexMapsScriptLoaded (app w') = yandexMapsScriptLoaded (app w);
  untouched_error :
    mapError (app w') = mapError (app w) \/ mapError (app w') = Some msgBadApiKey
}.

Definition sparing {A} (m : M A) : Prop := forall w, untouched w (run m w).

(** A provider whose answers do not depend on when it is asked. *)
Definition timeless : Prop :=
  forall t address bounded, provider t address bounded = provider 0 address bounded.

(** What one resolution comes to under such a provider when nobody cancels:
    nothing is asked under a negative retry count; otherwise the first
    attempt decides. *)
Definition outcomeOf (rc : Z) (address : jsstring) : Completion (option GeoObject) :=
  if (rc <? 0)%Z then Abrupt Null
  else
    match attemptReply address 0 with
    | Resolved first => Normal first
    | Rejected error => Abrupt (ProviderFailure error)
    end.

Definition isFound (rc : Z) (address : jsstring) : bool :=
  match outcomeOf rc address with
  | Normal (Some _) => true
  | _ => false
  end.

Definition placemarkOf (rc : Z) (job : nat * jsstring) : list Placemark :=
  match outcomeOf rc (snd job) with
  | Normal (Some found) =>
      [{| placemarkCoords := coordinates found; placemarkIndex := fst job;
          originalAddress := snd job; foundAddress := addressLine found |}]
  | _ => []
  end.

(** The resolution of the address does not end in an API key error. *)
Definition harmless (rc : Z) (address : jsstring) : Prop :=
  match outcomeOf rc address with
  | Abrupt error => isApiKeyError error = false
  | Normal _ => True
  end.

(** The results of the addresses from index [i] on, added to a component. *)
Definition settle (rc : Z) (i : nat) (addresses : list jsstring) (c : Component)
    : Component :=
  set_foundAddressesCount
    (foundAddressesCount c + length (filter (isFound rc) addresses))
    (set_notFoundAddresses
       (notFoundAddresses c ++ filter (fun a => negb (isFound rc a)) addresses)
       (set_geoObjectsCollection
          (geoObjectsCollection c ++ flat_map (placemarkOf rc) (numbered i addresses))
          c)).

(** ** Equations of the control operators *)

Lemma run_bind {A B} (m : M A) (k : A -> M B) (w : World) :
  run (bind m k) w =
  match result m w with
  | Normal a => run (k a) (run m w)
  | Abrupt _ => run m w
  end.
Proof.
  unfold run, result, bind. destruct (m w) as [[a | t] w1]; reflexivity.
Qed.

Lemma result_bind {A B} (m : M A) (k : A -> M B) (w : World) :
  result (bind m k) w =
  match result m w with
  | Normal a => result (k a) (run m w)
  | Abrupt t => Abrupt t
  end.
Proof.
  unfold run, result, bind. destruct (m w) as [[a | t] w1]; reflexivity.
Qed.

Lemma run_tryCatch {A} (m : M A) (h : Thrown -> M A) (w : World) :
  run (tryCatch m h) w =
  match result m w with
  | Normal _ => run m w
  | Abrupt t => run (h t) (run m w)
  end.
Proof.
  unfold run, result, tryCatch. destruct (m w) as [[a | t] w1]; reflexivity.
Qed.

Lemma result_tryCatch {A} (m : M A) (h : Thrown -> M A) (w : World) :
  result (tryCatch m h) w =
  match result m w with
  | Normal a => Normal a
  | Abrupt t => result (h t) (run m w)
  end.
Proof.
  unfold run, result, tryCatch. destruct (m w) as [[a | t] w1]; reflexivity.
Qed.

Lemma surjective_run {A} (m : M A) (w : World) : m w = (result m w, run m w).
Proof. unfold run, result. destruct (m w); reflexivity. Qed.

(** ** [during] is a preorder and holds of the resolver's steps *)

Lemma sameSession_refl (c : Component) : sameSession c c.
Proof. unfold sameSession. tauto. Qed.

Lemma sameSession_trans (c1 c2 c3 : Component) :
  sameSession c1 c2 -> sameSession c2 c3 -> sameSession c1 c3.
Proof.
  unfold sameSession. intros H1 H2.
  decompose [and] H1. decompose [and] H2.
  repeat split; try congruence; auto.
Qed.

Lemma during_refl (w : World) : during w w.
Proof.
  split.
  - apply sameSession_refl.
  - exists []. split; [reflexivity | constructor].
  - reflexivity.
  - lia.
  - intros t Ht. lia.
  - exists []. now rewrite app_nil_r.
Qed.

Lemma during_trans (w1 w2 w3 : World) :
  during w1 w2 -> during w2 w3 -> during w1 w3.
Proof.
  intros [A1 [n1 [P1 F1]] S1 C1 T1 [e1 E1]] [A2 [n2 [P2 F2]] S2 C2 T2 [e2 E2]].
  split.
  - eapply sameSession_trans; eassumption.
  - exists (n2 ++ n1). split.
    + rewrite P2, P1. now rewrite app_assoc.
    + apply Forall_app. split; [| assumption].
      eapply Forall_impl; [| exact F2].
      intros c Hc. eapply sameSession_trans; eassumption.
  - congruence.
  - lia.
  - intros t Ht Hs.
    destruct (Nat.lt_ge_cases t (clock w2)) as [Hlt | Hge].
    + apply A2. apply (T1 t); [lia | assumption].
    + apply (T2 t); [lia | assumption].
  - exists (e1 ++ e2). rewrite E2, E1. now rewrite app_assoc.
Qed.

Lemma quiet_ret {A} (a : A) : quiet (ret a).
Proof. intro w. apply during_refl. Qed.

Lemma quiet_throw {A} (t : Thrown) : quiet (@throw A t).
Proof. intro w. apply during_refl. Qed.

Lemma quiet_gets {A} (f : Component -> A) : quiet (gets f).
Proof. intro w. apply during_refl. Qed.

Lemma quiet_now : quiet now.
Proof. intro w. apply during_refl. Qed.

Lemma quiet_emit (e : Effect) : quiet (emit e).
Proof.
  intro w. split; simpl.
  - apply sameSession_refl.
  - exists []. split; [reflexivity | constructor].
  - reflexivity.
  - lia.
  - intros t Ht. lia.
  - exists [e]. reflexivity.
Qed.

Create HintDb quiet.
#[local] Hint Resolve quiet_ret quiet_throw quiet_gets quiet_now quiet_emit : quiet.

Lemma quiet_bind {A B} (m : M A) (k : A -> M B) :
  quiet m -> (forall a, quiet (k a)) -> quiet (bind m k).
Proof.
  intros Hm Hk w. rewrite run_bind.
  destruct (result m w) as [a | t].
  - eapply during_trans; [apply Hm | apply Hk].
  - apply Hm.
Qed.

Lemma quiet_tryCatch {A} (m : M A) (h : Thrown -> M A) :
  quiet m -> (forall t, quiet (h t)) -> quiet (tryCatch m h).
Proof.
  intros Hm Hh w. rewrite run_tryCatch.
  destruct (result m w) as [a | t].
  - apply Hm.
  - eapply during_trans; [apply Hm | apply Hh].
Qed.

(** A write that keeps [sameSession] is a quiet step. *)
Lemma quiet_modify (f : Component -> Component) :
  (forall c, sameSession c (f c)) -> quiet (modify f).
Proof.
  intros Hf w. split; simpl.
  - apply Hf.
  - exists [app w]. split; [reflexivity |].
    constructor; [apply sameSession_refl | constructor].
  - reflexivity.
  - lia.
  - intros t Ht. lia.
  - exists []. now rewrite app_nil_r.
Qed.

Lemma quiet_set_mapError (v : option jsstring) : quiet (modify (set_mapError v)).
Proof. apply quiet_modify. intro c. unfold sameSession. simpl. tauto. Qed.

Lemma quiet_stopSearch : quiet stopSearch.
Proof.
  unfold stopSearch. apply quiet_bind; [| intros _];
    apply quiet_modify; intro c; unfold sameSession; simpl; tauto.
Qed.

Lemma clock_suspend (w : World) : clock (run suspend w) = S (clock w).
Proof.
  unfold suspend, run, bind, now, tick. simpl.
  destruct (userStops (clock w)); reflexivity.
Qed.

Lemma effects_suspend (w : World) : effects (run suspend w) = effects w.
Proof.
  unfold suspend, run, bind, now, tick. simpl.
  destruct (userStops (clock w)); reflexivity.
Qed.

Lemma result_suspend (w : World) : result suspend w = Normal tt.
Proof.
  unfold suspend, result, bind, now, tick. simpl.
  destruct (userStops (clock w)); reflexivity.
Qed.

Lemma quiet_suspend : quiet suspend.
Proof.
  intro w. unfold suspend, run, bind, now, tick. simpl.
  destruct (userStops (clock w)) eqn:Hstop; simpl.
  - pose proof (quiet_stopSearch w) as [A P S C T E].
    split; simpl; try assumption.
    + change (clock (run stopSearch w)) with (clock w). lia.
    + intros. reflexivity.
  - split; simpl.
    + apply sameSession_refl.
    + exists []. split; [reflexivity | constructor].
    + reflexivity.
    + lia.
    + intros t Ht Hs. assert (t = clock w) by lia. congruence.
    + exists []. now rewrite app_nil_r.
Qed.

#[local] Hint Resolve quiet_set_mapError quiet_stopSearch quiet_suspend : quiet.

(** Splits a sequence of statements into its statements, and closes those
    that are known to be quiet. *)
Ltac quiet_steps :=
  repeat first
    [ solve [auto with quiet]
    | apply quiet_bind; [| intro]
    | apply quiet_tryCatch; [| intro] ].

Lemma quiet_geocode (address : jsstring) (bounded : bool) :
  quiet (geocode address bounded).
Proof.
  unfold geocode. quiet_steps.
  match goal with |- quiet (match ?reply with _ => _ end) => destruct reply end;
    auto with quiet.
Qed.

Lemma quiet_sleep (timer : Effect) : quiet (sleep timer).
Proof. unfold sleep. quiet_steps. Qed.

#[local] Hint Resolve quiet_geocode quiet_sleep : quiet.

Lemma quiet_lookup (address : jsstring) : quiet (lookup address).
Proof.
  unfold lookup. quiet_steps.
  match goal with |- quiet (match ?first with _ => _ end) => destruct first end;
    auto with quiet.
Qed.

Lemma quiet_onLookupError address rc rd attempt error :
  quiet (onLookupError address rc rd attempt error).
Proof.
  unfold onLookupError.
  destruct (isApiKeyError error); [| destruct (attempt <? rc)%Z]; quiet_steps.
Qed.

#[local] Hint Resolve quiet_lookup quiet_onLookupError : quiet.

Lemma quiet_attemptsFrom n address rc rd :
  forall attempt lastError, quiet (attemptsFrom n address rc rd attempt lastError).
Proof.
  induction n as [| n IH]; intros attempt lastError; simpl.
  - quiet_steps.
  - quiet_steps.
    match goal with |- quiet (if ?flag then _ else _) => destruct flag end;
      quiet_steps.
Qed.

Lemma quiet_geocodeWithRetry (address : jsstring) : quiet (geocodeWithRetry address).
Proof.
  unfold geocodeWithRetry. quiet_steps. apply quiet_attemptsFrom.
Qed.

(** ** One attempt *)

Lemma geocode_eq (address : jsstring) (bounded : bool) (w : World) :
  geocode address bounded w =
  (match provider (clock w) address bounded with
   | Resolved firstGeoObject => Normal firstGeoObject
   | Rejected error => Abrupt (ProviderFailure error)
   end,
   run suspend (emitW (Geocode address bounded) w)).
Proof.
  unfold geocode, bind, now, emit. simpl.
  rewrite (surjective_run suspend), result_suspend.
  destruct (provider (clock w) address bounded); reflexivity.
Qed.

Lemma lookup_result (address : jsstring) (w : World) :
  result (lookup address) w =
  match attemptReply address (clock w) with
  | Resolved firstGeoObject => Normal firstGeoObject
  | Rejected error => Abrupt (ProviderFailure error)
  end.
Proof.
  unfold lookup, result, bind, attemptReply. rewrite geocode_eq.
  destruct (provider (clock w) address true) as [[found |] | error]; try reflexivity.
  rewrite geocode_eq, clock_suspend. reflexivity.
Qed.

Lemma lookup_effects (address : jsstring) (w : World) :
  effects (run (lookup address) w) = effects w ++ attemptCalls address (clock w).
Proof.
  unfold lookup, run, bind, attemptCalls. rewrite geocode_eq.
  destruct (provider (clock w) address true) as [[found |] | error]; simpl;
    try apply effects_suspend.
  rewrite geocode_eq. simpl. repeat (rewrite effects_suspend; simpl).
  rewrite <- app_assoc. reflexivity.
Qed.

Lemma attemptsFrom_cancelled n address rc rd attempt lastError (w : World) :
  searchCancelled (app w) = true ->
  attemptsFrom (S n) address rc rd attempt lastError w
  = (Abrupt (ErrorObject msgCancelled), w).
Proof.
  intro Hflag. simpl. unfold bind, gets. now rewrite Hflag.
Qed.

Lemma attemptsFrom_S n address rc rd attempt lastError (w : World) :
  searchCancelled (app w) = false ->
  attemptsFrom (S n) address rc rd attempt lastError w =
  match result (lookup address) w with
  | Normal firstGeoObject => (Normal firstGeoObject, run (lookup address) w)
  | Abrupt error =>
      (onLookupError address rc rd attempt error;;
       attemptsFrom n address rc rd (attempt + 1) error) (run (lookup address) w)
  end.
Proof.
  intro Hflag. simpl. unfold bind at 1. unfold gets. rewrite Hflag.
  unfold tryCatch. rewrite (surjective_run (lookup address) w).
  destruct (result (lookup address) w); reflexivity.
Qed.

Lemma sleep_eq (timer : Effect) (w : World) :
  sleep timer w = (Normal tt, run suspend (emitW timer w)).
Proof.
  unfold sleep, bind, emit.
  rewrite (surjective_run suspend), result_suspend. reflexivity.
Qed.

Lemma onLookupError_key address rc rd attempt error (w : World) :
  isApiKeyError error = true ->
  onLookupError address rc rd attempt error w
  = (Abrupt error, modifyW (set_mapError (Some msgBadApiKey)) w).
Proof. intro Hkey. unfold onLookupError. rewrite Hkey. reflexivity. Qed.

Lemma onLookupError_retry address rc rd attempt error (w : World) :
  isApiKeyError error = false ->
  (attempt < rc)%Z ->
  onLookupError address rc rd attempt error w
  = (Normal tt,
     run suspend
       (emitW (Backoff (delayAfter rd attempt))
          (emitW (WarnRetry address attempt (delayAfter rd attempt)) w))).
Proof.
  intros Hkey Hlt. unfold onLookupError. rewrite Hkey.
  destruct (Z.ltb_spec attempt rc); [| lia].
  unfold bind, emit. rewrite sleep_eq. reflexivity.
Qed.

Lemma onLookupError_last address rc rd attempt error (w : World) :
  isApiKeyError error = false ->
  (rc <= attempt)%Z ->
  onLookupError address rc rd attempt error w = (Normal tt, w).
Proof.
  intros Hkey Hge. unfold onLookupError. rewrite Hkey.
  destruct (Z.ltb_spec attempt rc); [lia | reflexivity].
Qed.

Lemma startSearch_not_ready (w : World) :
  mapInitialized (app w) = false ->
  startSearch w = (Normal tt, emitW (Alert msgMapNotReady) w).
Proof. intro Hready. unfold startSearch, bind, gets. now rewrite Hready. Qed.

Lemma iterationsFrom_step (rc attempt : Z) :
  (0 <= attempt <= rc)%Z ->
  iterationsFrom rc attempt = S (iterationsFrom rc (attempt + 1)).
Proof. unfold iterationsFrom. intro H. lia. Qed.

Lemma iterationsFrom_last (rc : Z) : iterationsFrom rc rc = 1.
Proof. unfold iterationsFrom. lia. Qed.

(** Without a press of the button a suspension only advances the clock. *)
Lemma suspend_undisturbed (w : World) :
  userStops (clock w) = false -> suspend w = (Normal tt, tickW w).
Proof. intro H. unfold suspend, bind, now, tick. simpl. now rewrite H. Qed.

Lemma lookup_undisturbed (address : jsstring) (w : World) :
  (forall t, userStops t = false) ->
  app (run (lookup address) w) = app w.
Proof.
  intro Hquiet. unfold lookup, run, bind. rewrite geocode_eq.
  unfold run at 1 2. rewrite suspend_undisturbed by apply Hquiet.
  destruct (provider (clock w) address true) as [[found |] | error]; try reflexivity.
  rewrite geocode_eq. unfold run. rewrite suspend_undisturbed by apply Hquiet.
  reflexivity.
Qed.

Lemma calls_app (l l' : list Effect) : calls (l ++ l') = calls l ++ calls l'.
Proof. apply flat_map_app. Qed.

(** When every attempt ends in a rejection that is not an API key error and
    nobody presses the button, the loop uses up all its passes. *)
Lemma attemptsFrom_failing address rc rd :
  (forall t, userStops t = false) ->
  (forall t, exists e, attemptReply address t = Rejected e
                       /\ isApiKeyError (ProviderFailure e) = false) ->
  forall n attempt lastError (w : World),
    searchCancelled (app w) = false ->
    Z.of_nat n = (rc - attempt + 1)%Z ->
    exists starts,
      length starts = n
      /\ app (run (attemptsFrom n address rc rd attempt lastError) w) = app w
      /\ calls (effects (run (attemptsFrom n address rc rd attempt lastError) w))
         = calls (effects w)
           ++ concat (map (fun t => calls (attemptCalls address t)) starts)
      /\ ((n = 0 /\ result (attemptsFrom n address rc rd attempt lastError) w
                    = Abrupt lastError)
          \/ exists e, attemptReply address (last starts 0) = Rejected e
                       /\ result (attemptsFrom n address rc rd attempt lastError) w
                          = Abrupt (ProviderFailure e)).
Proof.
  intros Hquiet Hfail n.
  induction n as [| n IH]; intros attempt lastError w Hflag Hn.
  - exists []. simpl. unfold run, result, bind, emit. simpl.
    repeat split; try reflexivity.
    + rewrite calls_app. simpl. reflexivity.
    + left. split; reflexivity.
  - destruct (Hfail (clock w)) as [e [Hreply Hkey]].
    pose proof (lookup_result address w) as Hres. rewrite Hreply in Hres.
    pose proof (lookup_undisturbed address w Hquiet) as Happ.
    pose proof (lookup_effects address w) as Heff.
    unfold run at 1 2, result.
    rewrite attemptsFrom_S by assumption. rewrite Hres. unfold bind at 1 2 3 4.
    destruct n as [| n'].
    + rewrite onLookupError_last by (assumption || lia).
      exists [clock w]. simpl. unfold bind, emit. simpl.
      repeat split; try assumption.
      * rewrite calls_app, Heff, calls_app. simpl.
        now rewrite !app_nil_r.
      * right. exists e. split; [assumption | reflexivity].
    + rewrite onLookupError_retry by (assumption || lia).
      set (w2 := run suspend _).
      assert (Happ2 : app w2 = app w).
      { subst w2. unfold run. rewrite suspend_undisturbed by apply Hquiet.
        simpl. assumption. }
      assert (Heff2 : calls (effects w2)
                      = calls (effects w) ++ calls (attemptCalls address (clock w))).
      { subst w2. rewrite effects_suspend. simpl.
        rewrite !calls_app, Heff, calls_app. simpl. now rewrite !app_nil_r. }
      destruct (IH (attempt + 1)%Z (ProviderFailure e) w2) as
        [starts [Hlen [Ha [Hc Hr]]]]; [congruence | lia |].
      exists (clock w :: starts).
      rewrite (surjective_run (attemptsFrom (S n') address rc rd (attempt + 1)
                                 (ProviderFailure e)) w2).
      cbn [fst snd]. repeat split.
      * simpl. now rewrite Hlen.
      * rewrite Ha. assumption.
      * rewrite Hc, Heff2. cbn [map concat]. now rewrite <- app_assoc.
      * right. destruct Hr as [[Hz _] | [e' [He' Hr']]]; [discriminate |].
        exists e'. split; [| exact Hr'].
        destruct starts as [| s starts']; [discriminate | exact He'].
Qed.

(** ** One address of the batch *)

Lemma processAddress_eq (i : nat) (address : jsstring) (w : World) :
  let w1 := run (geocodeWithRetry address) w in
  processAddress i address w =
  match result (geocodeWithRetry address) w with
  | Normal (Some found) =>
      (Normal false,
       modifyW (fun c => set_foundAddressesCount (foundAddressesCount c + 1) c)
         (modifyW
            (fun c =>
               set_geoObjectsCollection
                 (geoObjectsCollection c
                  ++ [{| placemarkCoords := coordinates found;
                         placemarkIndex := i + 1;
                         originalAddress := address;
                         foundAddress := addressLine found |}]) c)
            w1))
  | Normal None =>
      (Normal false,
       modifyW (fun c => set_notFoundAddresses (notFoundAddresses c ++ [address]) c)
         (emitW (WarnNotFound address) w1))
  | Abrupt error =>
      let w2 :=
        modifyW (fun c => set_notFoundAddresses (notFoundAddresses c ++ [address]) c)
          (emitW (ErrorGeocoding address error) w1) in
      if truthy (mapError (app w1)) then (Normal true, run stopSearch w2)
      else (Normal false, w2)
  end.
Proof.
  intro w1. subst w1. unfold processAddress, tryCatch, bind at 1.
  rewrite (surjective_run (geocodeWithRetry address) w).
  destruct (result (geocodeWithRetry address) w) as [[found |] | error];
    try reflexivity.
  unfold bind, emit, modify, gets. simpl.
  destruct (truthy (mapError (app (run (geocodeWithRetry address) w))));
    reflexivity.
Qed.

Lemma searchFrom_cons (i : nat) (address : jsstring) (rest : list jsstring)
    (w : World) :
  searchCancelled (app w) = false ->
  searchFrom i (address :: rest) w =
  match result (processAddress i address) w with
  | Normal true => (Normal tt, run (processAddress i address) w)
  | Normal false =>
      searchFrom (S i) rest
        (run (sleep (Pause GEOCODE_DELAY_MS)) (run (processAddress i address) w))
  | Abrupt error => (Abrupt error, run (processAddress i address) w)
  end.
Proof.
  intro Hflag. simpl. unfold bind at 1. unfold gets. rewrite Hflag.
  unfold bind at 1. rewrite (surjective_run (processAddress i address) w).
  destruct (result (processAddress i address) w) as [[|] | error]; try reflexivity.
  unfold bind. rewrite sleep_eq. reflexivity.
Qed.

Lemma run_searchFrom_cons (i : nat) (address : jsstring) (rest : list jsstring)
    (w : World) :
  searchCancelled (app w) = false ->
  run (searchFrom i (address :: rest)) w =
  match result (processAddress i address) w with
  | Normal false =>
      run (searchFrom (S i) rest)
        (run (sleep (Pause GEOCODE_DELAY_MS)) (run (processAddress i address) w))
  | _ => run (processAddress i address) w
  end.
Proof.
  intro Hflag. unfold run at 1. rewrite searchFrom_cons by assumption.
  destruct (result (processAddress i address) w) as [[|] | error]; reflexivity.
Qed.

Lemma searchFrom_stopped (i : nat) (address : jsstring) (rest : list jsstring)
    (w : World) :
  searchCancelled (app w) = true ->
  searchFrom i (address :: rest) w = (Normal tt, emitW LogStopped w).
Proof. intro Hflag. simpl. unfold bind, gets. rewrite Hflag. reflexivity. Qed.

Lemma processAddress_normal (i : nat) (address : jsstring) (w : World) :
  exists leave, result (processAddress i address) w = Normal leave.
Proof.
  unfold result. rewrite processAddress_eq.
  destruct (result (geocodeWithRetry address) w) as [[found |] | error]; simpl;
    eauto.
  destruct (truthy _); simpl; eauto.
Qed.

(** ** Tracking the button *)

Lemma tracked_refl (w : World) : tracked w w.
Proof. split; [lia | auto | intros; lia]. Qed.

Lemma tracked_trans (w1 w2 w3 : World) :
  tracked w1 w2 -> tracked w2 w3 -> tracked w1 w3.
Proof.
  intros [C1 F1 T1] [C2 F2 T2]. split.
  - lia.
  - auto.
  - intros t Ht Hs. destruct (Nat.lt_ge_cases t (clock w2)).
    + apply F2. apply (T1 t); [lia | assumption].
    + apply (T2 t); [lia | assumption].
Qed.

Lemma during_tracked (w w' : World) : during w w' -> tracked w w'.
Proof.
  intros [A P S C T E]. split; [assumption | apply A | assumption].
Qed.

(** A write or a message that leaves the flag as it is, or raised. *)
Lemma tracked_same_clock (w w' : World) :
  clock w' = clock w ->
  (searchCancelled (app w) = true -> searchCancelled (app w') = true) ->
  tracked w w'.
Proof. intros Hc Hf. split; [lia | assumption | intros; lia]. Qed.

Lemma tracked_processAddress (i : nat) (address : jsstring) (w : World) :
  tracked w (run (processAddress i address) w).
Proof.
  unfold run. rewrite processAddress_eq.
  pose proof (during_tracked _ _ (quiet_geocodeWithRetry address w)) as Hres.
  eapply tracked_trans; [exact Hres |].
  destruct (result (geocodeWithRetry address) w) as [[found |] | error];
    cbv zeta; [| | destruct (truthy _)];
    cbn [snd]; apply tracked_same_clock; simpl; auto.
Qed.

Lemma tracked_sleep (timer : Effect) (w : World) : tracked w (run (sleep timer) w).
Proof. apply during_tracked, quiet_sleep. Qed.

(** [processAddress] leaves the loop only by [stopSearch]. *)
Lemma processAddress_leave (i : nat) (address : jsstring) (w : World) :
  result (processAddress i address) w = Normal true ->
  searchCancelled (app (run (processAddress i address) w)) = true.
Proof.
  unfold result, run. rewrite processAddress_eq.
  destruct (result (geocodeWithRetry address) w) as [[found |] | error];
    cbn [fst snd]; try discriminate.
  destruct (truthy _); cbn [fst snd]; [reflexivity | discriminate].
Qed.

(** ** The loop over the addresses *)

Lemma searchFrom_normal (addresses : list jsstring) :
  forall i w, result (searchFrom i addresses) w = Normal tt.
Proof.
  induction addresses as [| address rest IH]; intros i w; [reflexivity |].
  destruct (searchCancelled (app w)) eqn:Hflag.
  - unfold result. now rewrite searchFrom_stopped.
  - unfold result. rewrite searchFrom_cons by assumption.
    destruct (processAddress_normal i address w) as [[|] Hleave]; rewrite Hleave.
    + reflexivity.
    + apply IH.
Qed.

Lemma startSearch_run (w : World) :
  mapInitialized (app w) = true ->
  run startSearch w =
  if (length (parseAddresses (addressesInput (app w))) =? 0)%nat
  then modifyW (set_isSearching false) (sessionStarted w)
  else finishSearch
         (run (searchFrom 0 (parseAddresses (addressesInput (app w))))
            (sessionStarted w)).
Proof.
  intro Hready. unfold run at 1, startSearch, bind at 1, gets at 1.
  rewrite Hready. cbn [negb]. unfold bind at 1 2 3 4 5 6 7, modify, gets.
  cbn [fst snd]. change (addressesInput (app _)) with (addressesInput (app w)).
  fold (sessionStarted w).
  destruct (length (parseAddresses (addressesInput (app w))) =? 0)%nat;
    [reflexivity |].
  unfold bind at 1.
  rewrite (surjective_run (searchFrom 0 _) (sessionStarted w)), searchFrom_normal.
  unfold bind, finishSearch, emit, ret. cbn [fst snd].
  destruct (0 <? length _)%nat; reflexivity.
Qed.

(** An API key error thrown by the retry loop has set [mapError]. *)
Lemma attemptsFrom_key_error n address rc rd :
  forall attempt lastError (w : World) error,
    isApiKeyError lastError = false ->
    result (attemptsFrom n address rc rd attempt lastError) w = Abrupt error ->
    isApiKeyError error = true ->
    mapError (app (run (attemptsFrom n address rc rd attempt lastError) w))
    = Some msgBadApiKey.
Proof.
  induction n as [| n IH]; intros attempt lastError w error Hlast Hres Hkey.
  - unfold result in Hres. simpl in Hres. congruence.
  - destruct (searchCancelled (app w)) eqn:Hflag.
    + unfold result in Hres. rewrite attemptsFrom_cancelled in Hres by assumption.
      simpl in Hres. injection Hres as <-. vm_compute in Hkey. discriminate.
    + unfold result in Hres. unfold run.
      rewrite attemptsFrom_S in * by assumption.
      destruct (result (lookup address) w) as [found | e0]; [discriminate |].
      unfold bind in *.
      destruct (isApiKeyError e0) eqn:Hkey0.
      * rewrite onLookupError_key in * by assumption. reflexivity.
      * destruct (Z.ltb_spec attempt rc).
        -- rewrite onLookupError_retry in * by assumption.
           eapply IH; eassumption.
        -- rewrite onLookupError_last in * by assumption.
           eapply IH; eassumption.
Qed.

Lemma geocodeWithRetry_eq (address : jsstring) (w : World) :
  geocodeWithRetry address w =
  attemptsFrom (iterationsFrom (retryCount (settings (app w))) 0) address
    (retryCount (settings (app w))) (retryDelays (settings (app w))) 0 Null w.
Proof. reflexivity. Qed.

Lemma geocodeWithRetry_key_error (address : jsstring) (w : World) error :
  result (geocodeWithRetry address) w = Abrupt error ->
  isApiKeyError error = true ->
  mapError (app (run (geocodeWithRetry address) w)) = Some msgBadApiKey.
Proof.
  unfold result, run. rewrite geocodeWithRetry_eq.
  apply attemptsFrom_key_error. reflexivity.
Qed.

(** ** The counters *)

Lemma sameSession_sessionBound (c c' : Component) :
  sameSession c c' -> sessionBound c -> sessionBound c'.
Proof.
  unfold sameSession, sessionBound. intros H. decompose [and] H.
  intro Hb. congruence.
Qed.

Lemma sameSession_pending (r : nat) (c c' : Component) :
  sameSession c c' -> pending r c -> pending r c'.
Proof.
  unfold sameSession, pending. intros H. decompose [and] H.
  intro Hb. congruence.
Qed.

Lemma during_sessionBound (w w' : World) :
  during w w' -> Forall sessionBound (states w) -> Forall sessionBound (states w').
Proof.
  intros [A [newer [P F]] _ _ _ _] Hall. unfold states in *.
  inversion Hall as [| c l Hhead Htail]; subst.
  constructor.
  - eapply sameSession_sessionBound; eassumption.
  - rewrite P. apply Forall_app. split; [| assumption].
    eapply Forall_impl; [| exact F].
    intros c Hc. eapply sameSession_sessionBound; eassumption.
Qed.

Lemma processAddress_counts (i : nat) (address : jsstring) (r : nat) (w : World) :
  Forall sessionBound (states w) ->
  pending (S r) (app w) ->
  Forall sessionBound (states (run (processAddress i address) w))
  /\ pending r (app (run (processAddress i address) w)).
Proof.
  intros Hall Hpend.
  pose proof (quiet_geocodeWithRetry address w) as Hduring.
  pose proof (during_sessionBound _ _ Hduring Hall) as Hall1.
  pose proof (sameSession_pending _ _ _ (during_app _ _ Hduring) Hpend) as Hpend1.
  unfold run at 1 2. rewrite processAddress_eq.
  set (w1 := run (geocodeWithRetry address) w) in *.
  unfold pending, sessionBound in Hpend1.
  destruct (result (geocodeWithRetry address) w) as [[found |] | error];
    cbv zeta; [| | destruct (truthy _)]; cbn [snd];
    unfold states in *; simpl; rewrite ?length_app; simpl;
    (split; [repeat constructor; try assumption | ]);
    unfold pending, sessionBound; simpl; rewrite ?length_app; simpl; try lia;
    inversion Hall1; assumption.
Qed.

Lemma searchFrom_counts (addresses : list jsstring) :
  forall i (w : World),
    Forall sessionBound (states w) ->
    pending (length addresses) (app w) ->
    Forall sessionBound (states (run (searchFrom i addresses) w))
    /\ exists r,
        pending r (app (run (searchFrom i addresses) w))
        /\ (searchCancelled (app (run (searchFrom i addresses) w)) = false ->
            r = 0).
Proof.
  induction addresses as [| address rest IH]; intros i w Hall Hpend.
  - split; [assumption |]. exists 0. split; [assumption | reflexivity].
  - destruct (searchCancelled (app w)) eqn:Hflag.
    + unfold run. rewrite searchFrom_stopped by assumption. cbn [snd].
      split; [assumption |].
      exists (length (address :: rest)). split; [assumption |].
      simpl. congruence.
    + rewrite run_searchFrom_cons by assumption.
      destruct (processAddress_counts i address (length rest) w Hall Hpend)
        as [Hall1 Hpend1].
      destruct (processAddress_normal i address w) as [[|] Hleave]; rewrite Hleave.
      * split; [assumption |].
        exists (length rest). split; [assumption |].
        rewrite processAddress_leave by assumption. discriminate.
      * pose proof (quiet_sleep (Pause GEOCODE_DELAY_MS)
                      (run (processAddress i address) w)) as Hduring.
        apply IH.
        -- eapply during_sessionBound; eassumption.
        -- eapply sameSession_pending; [apply Hduring | assumption].
Qed.

(** ** The order of the jobs *)

Lemma numbered_cons (i : nat) (address : jsstring) (rest : list jsstring) :
  numbered i (address :: rest) = (i + 1, address) :: numbered (S i) rest.
Proof. reflexivity. Qed.

Lemma jobsWith_cons (found outcome : bool) (outcomes : list bool)
    (job : nat * jsstring) (jobs : list (nat * jsstring)) :
  jobsWith found (outcome :: outcomes) (job :: jobs)
  = (if Bool.eqb outcome found then [job] else []) ++ jobsWith found outcomes jobs.
Proof. unfold jobsWith. simpl. destruct (Bool.eqb outcome found); reflexivity. Qed.

Lemma labels_app (l l' : list Placemark) : labels (l ++ l') = labels l ++ labels l'.
Proof. apply map_app. Qed.

(** One address ends up either as a placemark with its number or in
    [notFoundAddresses]. *)
Lemma processAddress_outcome (i : nat) (address : jsstring) (w : World) :
  exists outcome : bool,
    totalAddressesCount (app (run (processAddress i address) w))
    = totalAddressesCount (app w)
    /\ labels (geoObjectsCollection (app (run (processAddress i address) w)))
       = labels (geoObjectsCollection (app w))
         ++ (if outcome then [(i + 1, address)] else [])
    /\ notFoundAddresses (app (run (processAddress i address) w))
       = notFoundAddresses (app w) ++ (if outcome then [] else [address])
    /\ foundAddressesCount (app (run (processAddress i address) w))
       = foundAddressesCount (app w) + (if outcome then 1 else 0).
Proof.
  pose proof (during_app _ _ (quiet_geocodeWithRetry address w)) as Hsame.
  unfold sameSession in Hsame. decompose [and] Hsame. clear Hsame.
  unfold run at 1 2 3 4. rewrite processAddress_eq.
  destruct (result (geocodeWithRetry address) w) as [[found |] | error];
    cbv zeta; [exists true | exists false | exists false; destruct (truthy _)];
    cbn [snd]; simpl; rewrite ?labels_app, ?app_nil_r; simpl;
    repeat split; try congruence; lia.
Qed.

Lemma searchFrom_order (addresses : list jsstring) :
  forall i (w : World),
  exists outcomes,
    length outcomes <= length addresses
    /\ (searchCancelled (app (run (searchFrom i addresses) w)) = false ->
        length outcomes = length addresses)
    /\ totalAddressesCount (app (run (searchFrom i addresses) w))
       = totalAddressesCount (app w)
    /\ labels (geoObjectsCollection (app (run (searchFrom i addresses) w)))
       = labels (geoObjectsCollection (app w))
         ++ jobsWith true outcomes (numbered i addresses)
    /\ notFoundAddresses (app (run (searchFrom i addresses) w))
       = notFoundAddresses (app w)
         ++ map snd (jobsWith false outcomes (numbered i addresses))
    /\ foundAddressesCount (app (run (searchFrom i addresses) w))
       = foundAddressesCount (app w)
         + length (jobsWith true outcomes (numbered i addresses)).
Proof.
  induction addresses as [| address rest IH]; intros i w.
  - exists []. simpl. rewrite !app_nil_r. repeat split; auto.
  - destruct (searchCancelled (app w)) eqn:Hflag.
    + exists []. unfold run. rewrite searchFrom_stopped by assumption.
      simpl. rewrite !app_nil_r. repeat split; auto; try lia. congruence.
    + rewrite run_searchFrom_cons by assumption.
      destruct (processAddress_outcome i address w)
        as [outcome [Htotal [Hlabels [Hnot Hfound]]]].
      destruct (processAddress_normal i address w) as [[|] Hleave]; rewrite Hleave.
      * exists [outcome]. rewrite numbered_cons, !jobsWith_cons.
        unfold jobsWith. simpl.
        rewrite processAddress_leave by assumption.
        rewrite Htotal, Hlabels, Hnot, Hfound.
        destruct outcome; simpl; rewrite ?app_nil_r;
          repeat split; try lia; discriminate.
      * set (wp := run (processAddress i address) w) in *.
        pose proof (during_app _ _ (quiet_sleep (Pause GEOCODE_DELAY_MS) wp))
          as Hsame.
        unfold sameSession in Hsame. decompose [and] Hsame. clear Hsame.
        destruct (IH (S i) (run (sleep (Pause GEOCODE_DELAY_MS)) wp))
          as [outcomes [Hle [Hall [Ht [Hl [Hn Hf]]]]]].
        exists (outcome :: outcomes). rewrite numbered_cons, !jobsWith_cons.
        rewrite Ht, Hl, Hn, Hf.
        repeat match goal with H : _ = _ |- _ => rewrite H end.
        destruct outcome; simpl; rewrite ?app_nil_r, <- ?app_assoc; simpl;
          repeat split; try lia; auto.
Qed.

(** ** Saving the settings *)

Lemma saveSettings_eq (w : World) :
  saveSettings w =
  let delays := parseDelays (tempRetryDelays (app w)) in
  let newSettings :=
    {| apiKey := JsStr.trim (tempApiKey (app w));
       retryCount := tempRetryCount (app w);
       retryDelays := delays |} in
  let saved :=
    modifyW (set_isSettingsOpen false)
      (storeW newSettings (modifyW (set_settings newSettings) w)) in
  if (length delays =? 0)%nat then (Normal tt, emitW (Alert msgBadDelays) w)
  else if negb (JsStr.nonEmpty (apiKey newSettings))
  then (Normal tt, emitW (Alert msgNoApiKey) w)
  else if negb (JsStr.eqb (apiKey (settings (app w))) (apiKey newSettings))
          && JsStr.nonEmpty (apiKey (settings (app w)))
  then (Normal tt, emitW Reload (emitW (Alert msgKeyChanged) saved))
  else if negb (mapInitialized (app w)) && negb (yandexMapsScriptLoaded (app w))
  then (Normal tt, emitW LoadYandexMapsScript saved)
  else (Normal tt, saved).
Proof.
  unfold saveSettings, bind, gets, modify, store, emit, ret. cbv zeta.
  cbn [fst snd apiKey].
  destruct (length (parseDelays (tempRetryDelays (app w))) =? 0)%nat;
    [reflexivity |].
  destruct (JsStr.nonEmpty (JsStr.trim (tempApiKey (app w)))); [| reflexivity].
  cbn [negb app modifyW settings set_settings].
  destruct (JsStr.eqb (apiKey (settings (app w))) (JsStr.trim (tempApiKey (app w))));
    destruct (JsStr.nonEmpty (apiKey (settings (app w))));
    cbn [negb andb app modifyW storeW mapInitialized yandexMapsScriptLoaded
           set_settings set_isSettingsOpen];
    try reflexivity;
    destruct (mapInitialized (app w)); destruct (yandexMapsScriptLoaded (app w));
    reflexivity.
Qed.

(** ** Blank lines *)

Lemma trimStart_blank (s : jsstring) :
  JsStr.nonEmpty (JsStr.trimStart s) = negb (blank s).
Proof.
  unfold blank. induction s as [| c s IH]; [reflexivity |].
  cbn [JsStr.trimStart forallb].
  destruct (JsStr.isWhiteSpace c); [exact IH | reflexivity].
Qed.

Lemma blank_trimStart (s : jsstring) : blank (JsStr.trimStart s) = blank s.
Proof.
  unfold blank. induction s as [| c s IH]; [reflexivity |].
  cbn [JsStr.trimStart forallb].
  destruct (JsStr.isWhiteSpace c) eqn:Hc; [exact IH |].
  cbn [forallb]. now rewrite Hc.
Qed.

Lemma blank_rev (s : jsstring) : blank (rev s) = blank s.
Proof.
  unfold blank. induction s as [| c s IH]; [reflexivity |].
  cbn [rev forallb]. rewrite forallb_app, IH. cbn [forallb].
  rewrite andb_true_r. apply andb_comm.
Qed.

Lemma nonEmpty_rev (s : jsstring) : JsStr.nonEmpty (rev s) = JsStr.nonEmpty s.
Proof. unfold JsStr.nonEmpty. now rewrite length_rev. Qed.

(** [trim] leaves something exactly of the lines that are not blank. *)
Lemma trim_blank (s : jsstring) : JsStr.nonEmpty (JsStr.trim s) = negb (blank s).
Proof.
  unfold JsStr.trim.
  now rewrite nonEmpty_rev, trimStart_blank, blank_rev, blank_trimStart.
Qed.

Lemma parseAddresses_lines (input : jsstring) :
  parseAddresses input
  = map JsStr.trim
      (filter (fun line => negb (blank line)) (JsStr.split JsStr.newline input)).
Proof.
  unfold parseAddresses.
  induction (JsStr.split JsStr.newline input) as [| line lines IH];
    [reflexivity |].
  cbn [map filter]. rewrite trim_blank.
  destruct (negb (blank line)); cbn [map]; now rewrite IH.
Qed.

(** ** A search that nothing else interferes with *)

Lemma bind_ext {A B} (m m' : M A) (k k' : A -> M B) (w : World) :
  m w = m' w -> (forall a v, k a v = k' a v) -> bind m k w = bind m' k' w.
Proof.
  intros Hm Hk. unfold bind. rewrite Hm.
  destruct (m' w) as [[a | t] w1]; [apply Hk | reflexivity].
Qed.

Lemma tryCatch_ext {A} (m m' : M A) (h h' : Thrown -> M A) (w : World) :
  m w = m' w -> (forall e v, h e v = h' e v) -> tryCatch m h w = tryCatch m' h' w.
Proof.
  intros Hm Hh. unfold tryCatch. rewrite Hm.
  destruct (m' w) as [[a | t] w1]; [reflexivity | apply Hh].
Qed.

Section Alone.

Variable meanwhile : nat -> M unit.
Hypothesis Hnothing : nothingElse meanwhile.

Lemma alone_suspend (w : World) :
  Reentrant.suspend userStops meanwhile w = suspend w.
Proof.
  unfold Reentrant.suspend, suspend, bind, tryCatch, now, tick. cbn [fst snd].
  destruct (userStops (clock w)); cbn; rewrite Hnothing; reflexivity.
Qed.

Lemma alone_geocode (address : jsstring) (bounded : bool) (w : World) :
  Reentrant.geocode provider userStops meanwhile address bounded w
  = geocode address bounded w.
Proof.
  unfold Reentrant.geocode, geocode.
  apply bind_ext; [reflexivity | intros t v].
  apply bind_ext; [reflexivity | intros _ v1].
  apply bind_ext; [apply alone_suspend | reflexivity].
Qed.

Lemma alone_sleep (timer : Effect) (w : World) :
  Reentrant.sleep userStops meanwhile timer w = sleep timer w.
Proof.
  unfold Reentrant.sleep, sleep.
  apply bind_ext; [reflexivity | intros _ v]. apply alone_suspend.
Qed.

Lemma alone_lookup (address : jsstring) (w : World) :
  Reentrant.lookup provider userStops meanwhile address w = lookup address w.
Proof.
  unfold Reentrant.lookup, lookup.
  apply bind_ext; [apply alone_geocode | intros [found |] v];
    [reflexivity | apply alone_geocode].
Qed.

Lemma alone_onLookupError address rc rd attempt error (w : World) :
  Reentrant.onLookupError userStops meanwhile address rc rd attempt error w
  = onLookupError address rc rd attempt error w.
Proof.
  unfold Reentrant.onLookupError, onLookupError.
  destruct (isApiKeyError error); [reflexivity |].
  destruct (attempt <? rc)%Z; [| reflexivity].
  apply bind_ext; [reflexivity | intros _ v]. apply alone_sleep.
Qed.

Lemma alone_attemptsFrom n address rc rd :
  forall attempt lastError (w : World),
    Reentrant.attemptsFrom provider userStops meanwhile n address rc rd attempt
      lastError w
    = attemptsFrom n address rc rd attempt lastError w.
Proof.
  induction n as [| n IH]; intros attempt lastError w; [reflexivity |].
  cbn [Reentrant.attemptsFrom attemptsFrom].
  apply bind_ext; [reflexivity | intros [|] v]; [reflexivity |].
  apply tryCatch_ext; [apply alone_lookup | intros error v1].
  apply bind_ext; [apply alone_onLookupError | intros _ v2]. apply IH.
Qed.

Lemma alone_geocodeWithRetry (address : jsstring) (w : World) :
  Reentrant.geocodeWithRetry provider userStops meanwhile address w
  = geocodeWithRetry address w.
Proof.
  unfold Reentrant.geocodeWithRetry, geocodeWithRetry.
  apply bind_ext; [reflexivity | intros current v]. apply alone_attemptsFrom.
Qed.

Lemma alone_processAddress (i : nat) (address : jsstring) (w : World) :
  Reentrant.processAddress provider userStops meanwhile i address w
  = processAddress i address w.
Proof.
  unfold Reentrant.processAddress, processAddress.
  apply tryCatch_ext; [| reflexivity].
  apply bind_ext; [apply alone_geocodeWithRetry | reflexivity].
Qed.

Lemma alone_searchFrom (addresses : list jsstring) :
  forall i (w : World),
    Reentrant.searchFrom provider userStops meanwhile i addresses w
    = searchFrom i addresses w.
Proof.
  induction addresses as [| address rest IH]; intros i w; [reflexivity |].
  cbn [Reentrant.searchFrom searchFrom].
  apply bind_ext; [reflexivity | intros [|] v]; [reflexivity |].
  apply bind_ext; [apply alone_processAddress | intros [|] v1]; [reflexivity |].
  apply bind_ext; [apply alone_sleep | intros _ v2]. apply IH.
Qed.

Lemma alone_startSearch (w : World) :
  Reentrant.startSearch provider userStops meanwhile w = startSearch w.
Proof.
  unfold Reentrant.startSearch, startSearch.
  apply bind_ext; [reflexivity | intros [|] v]; cbn [negb]; [| reflexivity].
  do 5 (apply bind_ext; [reflexivity | intros _ ?v]).
  apply bind_ext; [reflexivity | intros input v5]. cbv zeta.
  apply bind_ext; [reflexivity | intros _ v6].
  destruct (length (parseAddresses input) =? 0)%nat; [reflexivity |].
  apply bind_ext; [apply alone_searchFrom | reflexivity].
Qed.

End Alone.

(** ** The properties of the pipeline *)

(** C10.  A search started before the map is initialised only shows the
    alert: it returns at once, no provider call is made, no time passes, and
    every field of the component keeps its value, among them [isSearching],
    [foundAddressesCount], [totalAddressesCount], [notFoundAddresses],
    [searchCancelled] and the placemark collection. *)
Theorem startSearch_before_map_ready (w : World) :
  mapInitialized (app w) = false ->
  startSearch w = (Normal tt, emitW (Alert msgMapNotReady) w)
  /\ app (run startSearch w) = app w
  /\ states (run startSearch w) = states w
  /\ clock (run startSearch w) = clock w
  /\ calls (effects (run startSearch w)) = calls (effects w)
  /\ isSearching (app (run startSearch w)) = isSearching (app w)
  /\ foundAddressesCount (app (run startSearch w)) = foundAddressesCount (app w)
  /\ totalAddressesCount (app (run startSearch w)) = totalAddressesCount (app w)
  /\ notFoundAddresses (app (run startSearch w)) = notFoundAddresses (app w)
  /\ searchCancelled (app (run startSearch w)) = searchCancelled (app w)
  /\ geoObjectsCollection (app (run startSearch w)) = geoObjectsCollection (app w).
Proof.
  intro Hready.
  pose proof (startSearch_not_ready w Hready) as E.
  split; [exact E |]. unfold run. rewrite E. simpl.
  repeat split; try reflexivity.
  unfold calls. rewrite flat_map_app. simpl. now rewrite app_nil_r.
Qed.

(** C4.  Within one attempt the biased lookup is always issued and the
    global lookup is issued exactly when the biased one resolves with no geo
    object; when the global one finds nothing either, the resolver returns
    [undefined] (no match) at the end of that attempt, whatever number of
    attempts is left. *)
Theorem global_lookup_only_after_empty_biased (address : jsstring) (w : World) :
  effects (run (lookup address) w)
  = effects w
    ++ Geocode address true
       :: (if isEmptyReply (provider (clock w) address true)
           then [Geocode address false] else [])
  /\ (isEmptyReply (provider (clock w) address true) = true
      <-> provider (clock w) address true = Resolved None)
  /\ (forall n rc rd attempt lastError,
        searchCancelled (app w) = false ->
        provider (clock w) address true = Resolved None ->
        provider (S (clock w)) address false = Resolved None ->
        attemptsFrom (S n) address rc rd attempt lastError w
        = (Normal None, run (lookup address) w)
        /\ effects (run (lookup address) w)
           = effects w ++ [Geocode address true; Geocode address false]).
Proof.
  split; [apply lookup_effects |]. split.
  - destruct (provider (clock w) address true) as [[found |] | error]; simpl;
      split; congruence.
  - intros n rc rd attempt lastError Hflag Hbiased Hglobal.
    rewrite attemptsFrom_S by assumption.
    rewrite lookup_result, lookup_effects. unfold attemptReply, attemptCalls.
    rewrite Hbiased, Hglobal. simpl. split; reflexivity.
Qed.

(** C3.  At any attempt, with any number of attempts left, when the attempt
    ends in a rejection that the [catch] block classifies as an API key
    error (status 401 or 403, or a message with "Invalid key" or "API key"),
    the resolver makes no further provider call and starts no timer: it sets
    [mapError] and throws that same error to its caller. *)
Theorem api_key_error_is_not_retried
    n address rc rd attempt lastError (w : World) (e : ProviderError) :
  searchCancelled (app w) = false ->
  attemptReply address (clock w) = Rejected e ->
  isApiKeyError (ProviderFailure e) = true ->
  let w' := run (attemptsFrom (S n) address rc rd attempt lastError) w in
  result (attemptsFrom (S n) address rc rd attempt lastError) w
  = Abrupt (ProviderFailure e)
  /\ w' = modifyW (set_mapError (Some msgBadApiKey)) (run (lookup address) w)
  /\ effects w' = effects w ++ attemptCalls address (clock w)
  /\ mapError (app w') = Some msgBadApiKey
  /\ truthy (mapError (app w')) = true.
Proof.
  intros Hflag Hreply Hkey w'. subst w'. unfold run at 1 3 4 5, result.
  rewrite attemptsFrom_S by assumption.
  rewrite lookup_result, Hreply.
  unfold bind. rewrite onLookupError_key by assumption. simpl.
  repeat split; try reflexivity. apply lookup_effects.
Qed.

(** C8.  With a non-empty [retryDelays], when attempt [k - 1] fails with an
    error that is not an API key error and is not the last attempt, the
    timer started before attempt [k] runs for
    [retryDelays[min(k - 1, length - 1)]] seconds and attempt [k] follows;
    when attempt [k - 1] is the last one ([k - 1 = retryCount]) no timer is
    started and the error is thrown. *)
Theorem backoff_before_attempt
    address rc rd (k : Z) lastError (w : World) (error : Thrown) :
  rd <> [] ->
  (0 < k)%Z ->
  searchCancelled (app w) = false ->
  result (lookup address) w = Abrupt error ->
  isApiKeyError error = false ->
  let w1 := run (lookup address) w in
  exists d,
    nth_error rd (Z.to_nat (Z.min (k - 1) (Z.of_nat (length rd) - 1))) = Some d
    /\ ((k - 1 < rc)%Z ->
        attemptsFrom (iterationsFrom rc (k - 1)) address rc rd (k - 1) lastError w
        = attemptsFrom (iterationsFrom rc k) address rc rd k error
            (run suspend
               (emitW (Backoff (Some d))
                  (emitW (WarnRetry address (k - 1) (Some d)) w1))))
    /\ ((k - 1 = rc)%Z ->
        attemptsFrom (iterationsFrom rc (k - 1)) address rc rd (k - 1) lastError w
        = (Abrupt error, emitW (ErrorExhausted address error) w1)).
Proof.
  intros Hne Hk Hflag Hfail Hkey w1.
  assert (Hlen : 0 < length rd) by (destruct rd; [congruence | simpl; lia]).
  destruct (nth_error rd (Z.to_nat (Z.min (k - 1) (Z.of_nat (length rd) - 1))))
    as [d |] eqn:Hd.
  2:{ apply nth_error_None in Hd. lia. }
  exists d. split; [reflexivity |].
  assert (Hdelay : delayAfter rd (k - 1) = Some d).
  { unfold delayAfter, arrayGet.
    destruct (Z.ltb_spec (Z.min (k - 1) (Z.of_nat (length rd) - 1)) 0); [lia |].
    exact Hd. }
  split.
  - intro Hlt.
    rewrite (iterationsFrom_step rc (k - 1)) by lia.
    rewrite attemptsFrom_S by assumption. rewrite Hfail.
    replace (k - 1 + 1)%Z with k by lia.
    unfold bind. rewrite onLookupError_retry by assumption.
    rewrite Hdelay. reflexivity.
  - intro Heq.
    replace (iterationsFrom rc (k - 1)) with 1
      by (rewrite Heq; symmetry; apply iterationsFrom_last).
    rewrite attemptsFrom_S by assumption. rewrite Hfail.
    unfold bind. rewrite onLookupError_last by (assumption || lia).
    reflexivity.
Qed.


(** In a search followed alone, a "stop" pressed at some suspension between
    the start of one address and the end of its turn ends the loop with that
    turn. *)
Lemma stop_ends_the_loop_with_the_turn
    (i : nat) (address : jsstring) (rest : list jsstring) (w : World) :
  searchCancelled (app w) = false ->
  (exists t, clock w <= t < clock (run (searchFrom i [address]) w)
             /\ userStops t = true) ->
  let w1 := run (searchFrom i [address]) w in
  searchCancelled (app w1) = true
  /\ (run (searchFrom i (address :: rest)) w = w1
      \/ run (searchFrom i (address :: rest)) w = emitW LogStopped w1).
Proof.
  intros Hflag [t [Ht Hstop]] w1. subst w1. revert Ht.
  rewrite !run_searchFrom_cons by assumption.
  destruct (processAddress_normal i address w) as [leave Hleave].
  rewrite Hleave. destruct leave.
  - intros _. split; [| left; reflexivity].
    now apply processAddress_leave.
  - set (w1 := run (sleep (Pause GEOCODE_DELAY_MS)) (run (processAddress i address) w)).
    intro Ht.
    assert (Hraised : searchCancelled (app w1) = true).
    { assert (Htr : tracked w w1).
      { eapply tracked_trans;
          [apply tracked_processAddress | apply tracked_sleep]. }
      apply (tracked_stop _ _ Htr t); assumption. }
    split; [assumption |].
    destruct rest as [| next rest']; [left; reflexivity |].
    right. unfold run at 1. now rewrite searchFrom_stopped.
Qed.


(** C6.  When the first address of a run resolves to an API key error, that
    address is appended to [notFoundAddresses], [stopSearch] cancels the
    session and the loop is left: the run ends with the effects and the
    clock of that one resolution plus its console message, so the addresses
    after the first cause no provider call, and [notFoundAddresses] holds
    the first address only. *)
Theorem api_key_error_on_first_job_halts_batch
    (address : jsstring) (rest : list jsstring) (w : World) (error : Thrown) :
  mapInitialized (app w) = true ->
  parseAddresses (addressesInput (app w)) = address :: rest ->
  result (geocodeWithRetry address) (sessionStarted w) = Abrupt error ->
  isApiKeyError error = true ->
  let resolved := run (geocodeWithRetry address) (sessionStarted w) in
  let w' := run startSearch w in
  notFoundAddresses (app w') = [address]
  /\ searchCancelled (app w') = true
  /\ isSearching (app w') = false
  /\ foundAddressesCount (app w') = 0
  /\ totalAddressesCount (app w') = S (length rest)
  /\ geoObjectsCollection (app w') = []
  /\ truthy (mapError (app w')) = true
  /\ effects w' = effects resolved ++ [ErrorGeocoding address error]
  /\ clock w' = clock resolved.
Proof.
  intros Hready Haddresses Hres Hkey resolved w'.
  pose proof (geocodeWithRetry_key_error _ _ _ Hres Hkey) as Hmap.
  fold resolved in Hmap.
  pose proof (during_app _ _ (quiet_geocodeWithRetry address (sessionStarted w)))
    as Hsame.
  fold resolved in Hsame. unfold sameSession in Hsame.
  destruct Hsame as [_ [Hfound [Htotal [Hnot [Hcoll _]]]]].
  simpl in Hfound, Htotal, Hnot, Hcoll. rewrite Haddresses in Htotal.
  assert (Hjob : processAddress 0 address (sessionStarted w)
                 = (Normal true,
                    run stopSearch
                      (modifyW
                         (fun c => set_notFoundAddresses
                                     (notFoundAddresses c ++ [address]) c)
                         (emitW (ErrorGeocoding address error) resolved)))).
  { rewrite processAddress_eq, Hres. cbv zeta. fold resolved. rewrite Hmap.
    reflexivity. }
  assert (Hfinal : w' = finishSearch
                          (run stopSearch
                             (modifyW
                                (fun c => set_notFoundAddresses
                                            (notFoundAddresses c ++ [address]) c)
                                (emitW (ErrorGeocoding address error) resolved)))).
  { subst w'. rewrite startSearch_run by assumption. rewrite Haddresses.
    cbn [length Nat.eqb].
    rewrite run_searchFrom_cons by reflexivity.
    unfold result, run at 1 2. rewrite Hjob. reflexivity. }
  rewrite Hfinal. unfold finishSearch. simpl.
  rewrite Hcoll. simpl. rewrite ?Hnot, ?Hfound, ?Htotal, ?Hmap, ?Hcoll. simpl.
  repeat split; reflexivity.
Qed.

(** The counters of a search followed alone. *)
Lemma counters_of_a_search_alone (w : World) :
  Forall sessionBound (states w) ->
  Forall sessionBound (states (run startSearch w))
  /\ (mapInitialized (app w) = true ->
      searchCancelled (app (run startSearch w)) = false ->
      foundAddressesCount (app (run startSearch w))
      + length (notFoundAddresses (app (run startSearch w)))
      = totalAddressesCount (app (run startSearch w)))
  /\ (forall i address (v : World),
        let v' := run (processAddress i address) v in
        (foundAddressesCount (app v') = foundAddressesCount (app v) + 1
         /\ notFoundAddresses (app v') = notFoundAddresses (app v))
        \/ (foundAddressesCount (app v') = foundAddressesCount (app v)
            /\ notFoundAddresses (app v') = notFoundAddresses (app v) ++ [address]))
  /\ Forall sessionBound (states initialWorld).
Proof.
  intro Hall.
  assert (Hjob : forall i address (v : World),
             let v' := run (processAddress i address) v in
             (foundAddressesCount (app v') = foundAddressesCount (app v) + 1
              /\ notFoundAddresses (app v') = notFoundAddresses (app v))
             \/ (foundAddressesCount (app v') = foundAddressesCount (app v)
                 /\ notFoundAddresses (app v')
                    = notFoundAddresses (app v) ++ [address])).
  { intros i address v v'. subst v'.
    destruct (processAddress_outcome i address v)
      as [[|] [_ [_ [Hnot Hfound]]]]; rewrite Hnot, Hfound.
    - left. split; [reflexivity | apply app_nil_r].
    - right. split; [lia | reflexivity]. }
  cut (Forall sessionBound (states (run startSearch w))
       /\ (mapInitialized (app w) = true ->
           searchCancelled (app (run startSearch w)) = false ->
           foundAddressesCount (app (run startSearch w))
           + length (notFoundAddresses (app (run startSearch w)))
           = totalAddressesCount (app (run startSearch w)))).
  { intros [H1 H2]. repeat split; try assumption.
    repeat constructor. }
  clear Hjob.
  destruct (mapInitialized (app w)) eqn:Hready.
  2:{ unfold run. rewrite startSearch_not_ready by assumption.
      split; [assumption | discriminate]. }
  rewrite startSearch_run by assumption.
  set (addresses := parseAddresses (addressesInput (app w))).
  assert (Hstarted : Forall sessionBound (states (sessionStarted w))
                     /\ pending (length addresses) (app (sessionStarted w))).
  { unfold states in *. inversion Hall as [| c l Hhead Htail]; subst.
    unfold sessionBound in Hhead.
    split; [| reflexivity].
    unfold sessionStarted. simpl.
    repeat (constructor; [unfold sessionBound; simpl; lia |]).
    assumption. }
  destruct Hstarted as [Hall0 Hpend0].
  destruct (length addresses =? 0)%nat eqn:Hempty.
  - apply Nat.eqb_eq in Hempty. split.
    + unfold states in *. cbn [app past modifyW].
      constructor; [| assumption].
      inversion Hall0 as [| c l Hhead Htail]; subst. exact Hhead.
    + intros _ _. simpl. fold addresses. lia.
  - destruct (searchFrom_counts addresses 0 (sessionStarted w) Hall0 Hpend0)
      as [Hall1 [r [Hpend1 Hdone]]].
    set (w1 := run (searchFrom 0 addresses) (sessionStarted w)) in *.
    unfold finishSearch.
    destruct (0 <? length (geoObjectsCollection (app w1)))%nat;
      unfold states in *; simpl; unfold pending in Hpend1.
    + split.
      * constructor; [| assumption]. inversion Hall1. assumption.
      * intros _ Hflag. specialize (Hdone Hflag). lia.
    + split.
      * constructor; [| assumption]. inversion Hall1. assumption.
      * intros _ Hflag. specialize (Hdone Hflag). lia.
Qed.


(** C5.  The jobs of a search are the lines of the input that hold a
    character other than white space, each trimmed, in the order of the
    input: a line that is empty or holds white space only gives no job.  A
    search started on an initialised map sets [totalAddressesCount] to the
    number of those lines, which is the number of lines that are not empty
    once trimmed; the addresses are handled in the order of the input: some
    first ones of them, all of them when the run ends uncancelled, each
    ending either as a placemark numbered by its position or in
    [notFoundAddresses], both in input order; and when no line is left the
    run ends at once, with no effect and no suspension, the counters at zero
    and [notFoundAddresses] empty. *)
Theorem total_counts_nonblank_lines (w : World) :
  mapInitialized (app w) = true ->
  let input := addressesInput (app w) in
  let lines := JsStr.split JsStr.newline input in
  let addresses := parseAddresses input in
  let w' := run startSearch w in
  addresses = map JsStr.trim (filter (fun line => negb (blank line)) lines)
  /\ totalAddressesCount (app w')
     = length (filter (fun line => negb (blank line)) lines)
  /\ length addresses
     = length (filter (fun line => JsStr.nonEmpty (JsStr.trim line)) lines)
  /\ totalAddressesCount (app w') = length addresses
  /\ (exists outcomes : list bool,
        length outcomes <= length addresses
        /\ (searchCancelled (app w') = false -> length outcomes = length addresses)
        /\ labels (geoObjectsCollection (app w'))
           = jobsWith true outcomes (numbered 0 addresses)
        /\ notFoundAddresses (app w')
           = map snd (jobsWith false outcomes (numbered 0 addresses)))
  /\ (length addresses = 0 ->
      w' = modifyW (set_isSearching false) (sessionStarted w)
      /\ totalAddressesCount (app w') = 0
      /\ foundAddressesCount (app w') = 0
      /\ notFoundAddresses (app w') = []
      /\ isSearching (app w') = false
      /\ effects w' = effects w
      /\ clock w' = clock w).
Proof.
  intros Hready input lines addresses w'. subst w'.
  rewrite startSearch_run by assumption. fold input. fold addresses.
  assert (Htotal : totalAddressesCount
                     (app (if (length addresses =? 0)%nat
                           then modifyW (set_isSearching false) (sessionStarted w)
                           else finishSearch
                                  (run (searchFrom 0 addresses) (sessionStarted w))))
                   = length addresses).
  { destruct (length addresses =? 0)%nat; [reflexivity |].
    destruct (searchFrom_order addresses 0 (sessionStarted w))
      as [outcomes [_ [_ [Htotal _]]]].
    unfold finishSearch. cbn [app modifyW set_isSearching totalAddressesCount].
    destruct (0 <? _)%nat; cbn [app emitW]; rewrite Htotal; reflexivity. }
  split; [apply parseAddresses_lines |].
  split.
  { rewrite Htotal. unfold addresses. rewrite parseAddresses_lines.
    apply length_map. }
  split; [| split; [| split]].
  - unfold addresses, parseAddresses, lines.
    induction (JsStr.split JsStr.newline input) as [| line rest IH];
      [reflexivity |].
    simpl. destruct (JsStr.nonEmpty (JsStr.trim line)); simpl; now rewrite IH.
  - exact Htotal.
  - destruct (length addresses =? 0)%nat eqn:Hempty.
    + exists []. apply Nat.eqb_eq in Hempty. simpl.
      repeat split; auto; lia.
    + destruct (searchFrom_order addresses 0 (sessionStarted w))
        as [outcomes [Hle [Hall [_ [Hlabels [Hnot _]]]]]].
      exists outcomes. unfold finishSearch.
      cbn [app modifyW set_isSearching geoObjectsCollection notFoundAddresses
             searchCancelled].
      destruct (0 <? _)%nat; cbn [app emitW];
        rewrite Hlabels, Hnot; repeat split; auto.
  - intro Hzero. rewrite Hzero. cbn [Nat.eqb]. simpl.
    fold input. fold addresses. rewrite Hzero. repeat split; reflexivity.
Qed.

(** C9.  When the delays text yields no positive number, [saveSettings]
    only shows the alert: the settings in memory and what is kept under the
    settings key stay as they were.  Whenever [saveSettings] does write, the
    delay sequence it puts into the settings is not empty and holds only
    numbers that are not [NaN] and are greater than zero, [Infinity]
    possibly among them; what it puts under the settings key has as many
    delays, each written as the number itself when it is finite, so as a
    number that is greater than zero, and as [null] when it is [Infinity].
    So a non-empty sequence in the settings, as the initial one is, stays
    non-empty through every save. *)
Theorem saved_delays_nonempty_positive (w : World) :
  let delays := parseDelays (tempRetryDelays (app w)) in
  let w' := run saveSettings w in
  (delays = [] ->
   saveSettings w = (Normal tt, emitW (Alert msgBadDelays) w)
   /\ app w' = app w
   /\ localStorage w' = localStorage w
   /\ persisted w' = persisted w)
  /\ ((settings (app w') = settings (app w) /\ localStorage w' = localStorage w
       /\ persisted w' = persisted w)
      \/ (retryDelays (settings (app w')) = delays
          /\ localStorage w' = Some (settings (app w'))
          /\ delays <> []
          /\ Forall (fun n => PrimFloat.is_nan n = false
                              /\ PrimFloat.ltb 0%float n = true) delays
          /\ exists stored,
              persisted w' = Some stored
              /\ storedRetryDelays stored = map jsonNumber delays
              /\ storedRetryDelays stored <> []
              /\ Forall2
                   (fun n written =>
                      (PrimFloat.is_finite n = true /\ written = Some n
                       /\ PrimFloat.ltb 0%float n = true)
                      \/ (PrimFloat.is_infinity n = true /\ written = None))
                   delays (storedRetryDelays stored)))
  /\ (retryDelays (settings (app w)) <> [] ->
      retryDelays (settings (app w')) <> [])
  /\ retryDelays (settings initialComponent) <> [].
Proof.
  intros delays w'. subst w'.
  assert (Hwritten : forall l,
             Forall (fun n => PrimFloat.is_nan n = false
                              /\ PrimFloat.ltb 0%float n = true) l ->
             Forall2
               (fun n written =>
                  (PrimFloat.is_finite n = true /\ written = Some n
                   /\ PrimFloat.ltb 0%float n = true)
                  \/ (PrimFloat.is_infinity n = true /\ written = None))
               l (map jsonNumber l)).
  { induction 1 as [| n l [Hnan Hgt] _ IH]; cbn [map]; constructor; [| exact IH].
    unfold jsonNumber, PrimFloat.is_finite. rewrite Hnan. cbn [orb].
    destruct (PrimFloat.is_infinity n); cbn [negb]; [right | left]; auto. }
  assert (Hpositive : Forall (fun n => PrimFloat.is_nan n = false
                                       /\ PrimFloat.ltb 0%float n = true) delays).
  { apply Forall_forall. intros n Hin. unfold delays, parseDelays in Hin.
    apply filter_In in Hin. destruct Hin as [_ Hn].
    unfold positiveNumber in Hn. apply andb_prop in Hn. destruct Hn as [Hnan Hgt].
    split; [now apply negb_true_iff | assumption]. }
  assert (Hcases :
            (delays = [] /\ saveSettings w = (Normal tt, emitW (Alert msgBadDelays) w))
            \/ (delays <> []
                /\ settings (app (run saveSettings w)) = settings (app w)
                /\ localStorage (run saveSettings w) = localStorage w)
            \/ (delays <> []
                /\ retryDelays (settings (app (run saveSettings w))) = delays
                /\ localStorage (run saveSettings w)
                   = Some (settings (app (run saveSettings w))))).
  { unfold run. rewrite saveSettings_eq. cbv zeta. fold delays.
    destruct delays as [| d ds] eqn:Hdelays; [left; split; reflexivity | right].
    cbn [length Nat.eqb].
    destruct (negb (JsStr.nonEmpty _)).
    - left. split; [discriminate |]. split; reflexivity.
    - right. split; [discriminate |].
      destruct (_ && _); [| destruct (_ && _)]; split; reflexivity. }
  split; [| split; [| split]].
  - intro Hnil. destruct Hcases as [[_ Heq] | [[Hne _] | [Hne _]]];
      try contradiction.
    split; [exact Heq |]. unfold run. rewrite Heq. repeat split; reflexivity.
  - destruct Hcases as [[_ Heq] | [[_ [Hsame Hstore]] | [Hne [Hd Hs]]]].
    + left. unfold run. rewrite Heq. repeat split; reflexivity.
    + left. unfold persisted. rewrite Hstore. repeat split; assumption.
    + right. split; [assumption |]. split; [assumption |].
      split; [assumption |]. split; [assumption |].
      exists (stringify (settings (app (run saveSettings w)))).
      unfold persisted. rewrite Hs. cbn [option_map stringify storedRetryDelays].
      rewrite Hd. split; [reflexivity |]. split; [reflexivity |].
      split; [| apply Hwritten; assumption].
      destruct delays; [congruence | discriminate].
  - intro Hold. destruct Hcases as [[_ Heq] | [[_ [Hsame _]] | [Hne [Hd _]]]].
    + unfold run. rewrite Heq. exact Hold.
    + rewrite Hsame. exact Hold.
    + rewrite Hd. exact Hne.
  - discriminate.
Qed.

(** ** Further properties: strings and parsing *)

Lemma eqb_eq (s t : jsstring) : JsStr.eqb s t = true <-> s = t.
Proof.
  revert t. induction s as [| a s IH]; intros [| b t]; simpl;
    try (split; [discriminate | discriminate]); [tauto |].
  rewrite andb_true_iff, N.eqb_eq, IH. split.
  - intros [-> ->]. reflexivity.
  - intro H. injection H as -> ->. split; reflexivity.
Qed.

Lemma nonEmpty_iff (s : jsstring) : JsStr.nonEmpty s = true <-> s <> [].
Proof.
  destruct s as [| c s]; unfold JsStr.nonEmpty; simpl; split; intro H;
    try discriminate; try reflexivity.
  now contradiction H.
Qed.

Lemma split_nonempty (sep : N) (s : jsstring) : JsStr.split sep s <> [].
Proof.
  induction s as [| c s IH]; simpl; [discriminate |].
  destruct (c =? sep)%N; [discriminate |].
  destruct (JsStr.split sep s); discriminate.
Qed.

Lemma split_app (sep : N) (a b : jsstring) :
  JsStr.split sep (a ++ sep :: b) = JsStr.split sep a ++ JsStr.split sep b.
Proof.
  induction a as [| c a IH]; simpl.
  - now rewrite N.eqb_refl.
  - destruct (c =? sep)%N; [now rewrite IH |].
    rewrite IH. pose proof (split_nonempty sep a) as Hne.
    destruct (JsStr.split sep a); [congruence | reflexivity].
Qed.

Lemma split_pieces_no_sep (sep : N) (s piece : jsstring) :
  In piece (JsStr.split sep s) -> ~ In sep piece.
Proof.
  revert piece. induction s as [| c s IH]; intros piece; simpl.
  - intros [<- | []]. auto.
  - destruct (N.eqb_spec c sep) as [-> | Hneq].
    + intros [<- | Hin]; [auto | now apply IH].
    + pose proof (split_nonempty sep s) as Hne.
      destruct (JsStr.split sep s) as [| first others]; [congruence |].
      intros [<- | Hin].
      * intros [Heq | Hin]; [congruence |]. apply (IH first); simpl; auto.
      * apply IH. simpl. auto.
Qed.

Lemma split_single (sep : N) (s : jsstring) :
  ~ In sep s -> JsStr.split sep s = [s].
Proof.
  induction s as [| c s IH]; simpl; [reflexivity |].
  intro Hnot. destruct (N.eqb_spec c sep) as [-> | Hneq]; [tauto |].
  rewrite IH by tauto. reflexivity.
Qed.

Lemma trimStart_suffix (s : jsstring) : exists pre, s = pre ++ JsStr.trimStart s.
Proof.
  induction s as [| c s [pre IH]]; simpl.
  - exists []. reflexivity.
  - destruct (JsStr.isWhiteSpace c).
    + exists (c :: pre). simpl. now rewrite <- IH.
    + exists []. reflexivity.
Qed.

Lemma trimStart_headClean (s : jsstring) : headClean (JsStr.trimStart s).
Proof.
  induction s as [| c s IH]; simpl; [exact I |].
  destruct (JsStr.isWhiteSpace c) eqn:Hc; [exact IH | exact Hc].
Qed.

Lemma trimStart_fixed (s : jsstring) : headClean s -> JsStr.trimStart s = s.
Proof. destruct s as [| c s]; simpl; [reflexivity | now intros ->]. Qed.

(** What [trim] returns: a segment of its argument with clean ends. *)
Lemma trim_shape (s : jsstring) :
  exists pre v post,
    s = pre ++ rev v ++ post
    /\ JsStr.trim s = rev v
    /\ headClean v
    /\ headClean (rev v).
Proof.
  unfold JsStr.trim.
  destruct (trimStart_suffix s) as [pre Hpre].
  destruct (trimStart_suffix (rev (JsStr.trimStart s))) as [p Hp].
  set (u := JsStr.trimStart s) in *.
  set (v := JsStr.trimStart (rev u)) in *.
  assert (Hu : u = rev v ++ rev p).
  { rewrite <- (rev_involutive u), Hp, rev_app_distr. reflexivity. }
  exists pre, v, (rev p). repeat split.
  - now rewrite <- Hu.
  - apply trimStart_headClean.
  - pose proof (trimStart_headClean s) as Hclean. fold u in Hclean.
    rewrite Hu in Hclean. destruct (rev v); [exact I | exact Hclean].
Qed.

Lemma trim_fixed (v : jsstring) :
  headClean v -> headClean (rev v) -> JsStr.trim (rev v) = rev v.
Proof.
  intros Hv Hrev. unfold JsStr.trim.
  rewrite (trimStart_fixed (rev v)) by assumption.
  rewrite rev_involutive. now rewrite (trimStart_fixed v).
Qed.

(** X1.  Every address that [startSearch] takes from the input is not empty,
    neither begins nor ends with white space, holds no line break, and is
    left as it is by a further [trim]. *)
Theorem parsed_addresses_are_clean (input address : jsstring) :
  In address (parseAddresses input) ->
  address <> []
  /\ JsStr.isWhiteSpace (hd 0%N address) = false
  /\ JsStr.isWhiteSpace (last address 0%N) = false
  /\ ~ In JsStr.newline address
  /\ JsStr.trim address = address.
Proof.
  unfold parseAddresses. intro Hin.
  apply filter_In in Hin. destruct Hin as [Hin Hne].
  apply nonEmpty_iff in Hne.
  apply in_map_iff in Hin. destruct Hin as [line [Htrim Hline]].
  destruct (trim_shape line) as [pre [v [post [Hsplit [Heq [Hv Hrev]]]]]].
  rewrite Heq in Htrim. subst address.
  split; [assumption |]. split; [| split; [| split]].
  - destruct (rev v); [congruence | exact Hrev].
  - destruct v as [| c v']; [simpl in Hne; congruence |].
    simpl. rewrite last_last. exact Hv.
  - intro Hnl. apply (split_pieces_no_sep _ _ _ Hline).
    rewrite Hsplit. apply in_or_app. right. apply in_or_app. now left.
  - now apply trim_fixed.
Qed.

(** X2.  The addresses of an input made of two parts with a line break
    between them are the addresses of the first part followed by those of the
    second. *)
Theorem parseAddresses_app (first second : jsstring) :
  parseAddresses (first ++ JsStr.newline :: second)
  = parseAddresses first ++ parseAddresses second.
Proof.
  unfold parseAddresses. now rewrite split_app, map_app, filter_app.
Qed.

(** ** Further properties: the settings form *)

Lemma eqb_refl (s : jsstring) : JsStr.eqb s s = true.
Proof. now apply eqb_eq. Qed.

(** What [saveSettings] does once the delays and the key have passed. *)
Lemma saveSettings_accepted (w : World) :
  parseDelays (tempRetryDelays (app w)) <> [] ->
  JsStr.trim (tempApiKey (app w)) <> [] ->
  saveSettings w =
  let newSettings :=
    {| apiKey := JsStr.trim (tempApiKey (app w));
       retryCount := tempRetryCount (app w);
       retryDelays := parseDelays (tempRetryDelays (app w)) |} in
  let saved :=
    modifyW (set_isSettingsOpen false)
      (storeW newSettings (modifyW (set_settings newSettings) w)) in
  if negb (JsStr.eqb (apiKey (settings (app w))) (apiKey newSettings))
     && JsStr.nonEmpty (apiKey (settings (app w)))
  then (Normal tt, emitW Reload (emitW (Alert msgKeyChanged) saved))
  else if negb (mapInitialized (app w)) && negb (yandexMapsScriptLoaded (app w))
  then (Normal tt, emitW LoadYandexMapsScript saved)
  else (Normal tt, saved).
Proof.
  intros Hdelays Hkey. rewrite saveSettings_eq. cbv zeta.
  destruct (parseDelays (tempRetryDelays (app w))) as [| d ds] eqn:Hd;
    [congruence |].
  cbn [length Nat.eqb apiKey].
  apply nonEmpty_iff in Hkey. rewrite Hkey. reflexivity.
Qed.

(** The fields after an accepted save. *)
Lemma saveSettings_accepted_fields (w : World) :
  parseDelays (tempRetryDelays (app w)) <> [] ->
  JsStr.trim (tempApiKey (app w)) <> [] ->
  settings (app (run saveSettings w))
  = {| apiKey := JsStr.trim (tempApiKey (app w));
       retryCount := tempRetryCount (app w);
       retryDelays := parseDelays (tempRetryDelays (app w)) |}
  /\ localStorage (run saveSettings w) = Some (settings (app (run saveSettings w)))
  /\ isSettingsOpen (app (run saveSettings w)) = false
  /\ tempRetryDelays (app (run saveSettings w)) = tempRetryDelays (app w)
  /\ tempApiKey (app (run saveSettings w)) = tempApiKey (app w)
  /\ tempRetryCount (app (run saveSettings w)) = tempRetryCount (app w)
  /\ mapInitialized (app (run saveSettings w)) = mapInitialized (app w)
  /\ yandexMapsScriptLoaded (app (run saveSettings w))
     = yandexMapsScriptLoaded (app w).
Proof.
  intros Hdelays Hkey. unfold run.
  rewrite saveSettings_accepted by assumption. cbv zeta.
  destruct (_ && _); [| destruct (_ && _)]; simpl; repeat split; reflexivity.
Qed.

(** The effects of an accepted save that replaces no key in use. *)
Lemma saveSettings_accepted_quietly (w : World) :
  parseDelays (tempRetryDelays (app w)) <> [] ->
  JsStr.trim (tempApiKey (app w)) <> [] ->
  apiKey (settings (app w)) = []
  \/ apiKey (settings (app w)) = JsStr.trim (tempApiKey (app w)) ->
  effects (run saveSettings w)
  = effects w
    ++ (if negb (mapInitialized (app w)) && negb (yandexMapsScriptLoaded (app w))
        then [LoadYandexMapsScript] else []).
Proof.
  intros Hdelays Hkey Hcase. unfold run.
  rewrite saveSettings_accepted by assumption. cbv zeta. cbn [apiKey].
  assert (Hno : negb (JsStr.eqb (apiKey (settings (app w)))
                        (JsStr.trim (tempApiKey (app w))))
                && JsStr.nonEmpty (apiKey (settings (app w))) = false).
  { destruct Hcase as [Hempty | Hsame].
    - rewrite Hempty. apply andb_false_r.
    - rewrite <- Hsame, eqb_refl. reflexivity. }
  rewrite Hno.
  destruct (negb (mapInitialized (app w)) && negb (yandexMapsScriptLoaded (app w)));
    simpl; [reflexivity | now rewrite app_nil_r].
Qed.

Lemma trim_trim (s : jsstring) : JsStr.trim (JsStr.trim s) = JsStr.trim s.
Proof.
  destruct (trim_shape s) as [pre [v [post [_ [Heq [Hv Hrev]]]]]].
  rewrite Heq. now apply trim_fixed.
Qed.

(** X3.  With delays that pass, a key that is empty once trimmed makes
    [saveSettings] only show its alert: the component, the settings in it
    and the stored settings stay as they were. *)
Theorem save_without_api_key_is_rejected (w : World) :
  parseDelays (tempRetryDelays (app w)) <> [] ->
  JsStr.trim (tempApiKey (app w)) = [] ->
  saveSettings w = (Normal tt, emitW (Alert msgNoApiKey) w)
  /\ app (run saveSettings w) = app w
  /\ localStorage (run saveSettings w) = localStorage w.
Proof.
  intros Hdelays Hkey.
  assert (E : saveSettings w = (Normal tt, emitW (Alert msgNoApiKey) w)).
  { rewrite saveSettings_eq. cbv zeta.
    destruct (parseDelays (tempRetryDelays (app w))) as [| d ds]; [congruence |].
    cbn [length Nat.eqb apiKey]. rewrite Hkey. reflexivity. }
  split; [exact E |]. unfold run. rewrite E. split; reflexivity.
Qed.

(** X4.  A save that passes both checks puts into the settings the trimmed
    key, the retry count of the form and the positive numbers of the delays
    text, stores that same record, and closes the dialog; the key it saves is
    not empty and has no white space at its ends. *)
Theorem accepted_save_writes_form_values (w : World) :
  parseDelays (tempRetryDelays (app w)) <> [] ->
  JsStr.trim (tempApiKey (app w)) <> [] ->
  let w' := run saveSettings w in
  settings (app w')
  = {| apiKey := JsStr.trim (tempApiKey (app w));
       retryCount := tempRetryCount (app w);
       retryDelays := parseDelays (tempRetryDelays (app w)) |}
  /\ localStorage w' = Some (settings (app w'))
  /\ isSettingsOpen (app w') = false
  /\ apiKey (settings (app w')) <> []
  /\ JsStr.trim (apiKey (settings (app w'))) = apiKey (settings (app w')).
Proof.
  intros Hdelays Hkey w'. subst w'.
  destruct (saveSettings_accepted_fields w Hdelays Hkey) as [Hs [Hl [Ho _]]].
  rewrite Hs in *. cbn [apiKey].
  repeat split; try assumption. apply trim_trim.
Qed.

(** X5.  A save that passes both checks asks for a page reload exactly when
    the key in use was not empty and differs from the new one; otherwise it
    shows no alert, and asks for the map script exactly when the map is not
    initialised and the script is not marked as loaded. *)
Theorem reload_only_when_key_in_use_is_replaced (w : World) :
  parseDelays (tempRetryDelays (app w)) <> [] ->
  JsStr.trim (tempApiKey (app w)) <> [] ->
  let old := apiKey (settings (app w)) in
  let w' := run saveSettings w in
  (old <> [] /\ old <> JsStr.trim (tempApiKey (app w)) ->
   effects w' = effects w ++ [Alert msgKeyChanged; Reload])
  /\ (old = [] \/ old = JsStr.trim (tempApiKey (app w)) ->
      effects w'
      = effects w
        ++ (if negb (mapInitialized (app w)) && negb (yandexMapsScriptLoaded (app w))
            then [LoadYandexMapsScript] else [])).
Proof.
  intros Hdelays Hkey old w'. subst w'. split.
  - intros [Hold Hdiff]. unfold run.
    rewrite saveSettings_accepted by assumption. cbv zeta. cbn [apiKey]. fold old.
    apply nonEmpty_iff in Hold. rewrite Hold.
    destruct (JsStr.eqb old (JsStr.trim (tempApiKey (app w)))) eqn:Heq.
    + apply eqb_eq in Heq. contradiction.
    + simpl. now rewrite <- app_assoc.
  - intros Hcase. now apply saveSettings_accepted_quietly.
Qed.

(** X6.  Saving a second time with the form as it is changes neither the
    settings nor the stored settings, and asks for no reload and shows no
    alert. *)
Theorem saving_twice_changes_nothing_more (w : World) :
  parseDelays (tempRetryDelays (app w)) <> [] ->
  JsStr.trim (tempApiKey (app w)) <> [] ->
  let w1 := run saveSettings w in
  let w2 := run saveSettings w1 in
  settings (app w2) = settings (app w1)
  /\ localStorage w2 = localStorage w1
  /\ effects w2
     = effects w1
       ++ (if negb (mapInitialized (app w)) && negb (yandexMapsScriptLoaded (app w))
           then [LoadYandexMapsScript] else []).
Proof.
  intros Hdelays Hkey w1 w2.
  destruct (saveSettings_accepted_fields w Hdelays Hkey)
    as [Hs [Hl [_ [Hd [Hk [Hc [Hm Hy]]]]]]].
  fold w1 in Hs, Hl, Hd, Hk, Hc, Hm, Hy.
  assert (Hdelays1 : parseDelays (tempRetryDelays (app w1)) <> []) by now rewrite Hd.
  assert (Hkey1 : JsStr.trim (tempApiKey (app w1)) <> []) by now rewrite Hk.
  destruct (saveSettings_accepted_fields w1 Hdelays1 Hkey1) as [Hs2 [Hl2 _]].
  fold w2 in Hs2, Hl2.
  split; [| split].
  - rewrite Hs2, Hs, Hd, Hk, Hc. reflexivity.
  - rewrite Hl2, Hl, Hs2, Hs, Hd, Hk, Hc. reflexivity.
  - unfold w2. rewrite saveSettings_accepted_quietly by
      (try assumption; right; rewrite Hs, Hk; reflexivity).
    now rewrite Hm, Hy.
Qed.

Lemma openSettings_eq (w : World) :
  openSettings w =
  (Normal tt,
   modifyW (set_isSettingsOpen true)
     (modifyW
        (set_tempRetryDelays
           (JsStr.join (JsStr.lit ", "%string)
              (map numberToString (retryDelays (settings (app w))))))
        (modifyW (set_tempRetryCount (retryCount (settings (app w))))
           (modifyW (set_tempApiKey (apiKey (settings (app w)))) w)))).
Proof. reflexivity. Qed.

(** Splitting at the commas what [join(', ')] has put together gives the
    pieces back, up to the white space that [trim] removes. *)
Lemma parse_join (pieces : list jsstring) :
  pieces <> [] ->
  Forall (fun s => ~ In JsStr.comma s) pieces ->
  map (fun s => parseFloat (JsStr.trim s))
    (JsStr.split JsStr.comma (JsStr.join (JsStr.lit ", "%string) pieces))
  = map (fun s => parseFloat (JsStr.trim s)) pieces.
Proof.
  induction pieces as [| piece rest IH]; [congruence |].
  intros _ Hcommas. inversion Hcommas as [| s l Hpiece Hrest]; subst.
  destruct rest as [| next rest'].
  - simpl. now rewrite split_single.
  - change (JsStr.join (JsStr.lit ", "%string) (piece :: next :: rest'))
      with (piece ++ JsStr.comma
                  :: 32%N :: JsStr.join (JsStr.lit ", "%string) (next :: rest')).
    rewrite split_app, split_single by assumption.
    specialize (IH ltac:(discriminate) Hrest).
    cbn [JsStr.split app map]. change (32 =? JsStr.comma)%N with false. cbv iota.
    pose proof (split_nonempty JsStr.comma
                  (JsStr.join (JsStr.lit ", "%string) (next :: rest'))) as Hne.
    destruct (JsStr.split JsStr.comma
                (JsStr.join (JsStr.lit ", "%string) (next :: rest')))
      as [| first others]; [congruence |].
    cbn [map app] in *. rewrite <- IH. reflexivity.
Qed.

Lemma written_delays_parse_back (delays : list float) :
  Forall (fun d => positiveNumber d = true
                   /\ ~ In JsStr.comma (numberToString d)
                   /\ parseFloat (JsStr.trim (numberToString d)) = d) delays ->
  filter positiveNumber
    (map (fun d => parseFloat (JsStr.trim (numberToString d))) delays)
  = delays.
Proof.
  induction 1 as [| d ds [Hpos [_ Hback]] _ IH]; [reflexivity |].
  simpl. now rewrite Hback, Hpos, IH.
Qed.

(** X7.  Opening the dialog and saving at once keeps the settings, when the
    key in use is not empty and has no white space at its ends, the delays are
    a non-empty list of positive numbers, and writing a delay out and parsing
    it back gives the same number: the settings stay as they are, the stored
    settings become equal to them, the dialog is closed, and no reload is
    asked. *)
Theorem open_then_save_keeps_settings (w : World) :
  let current := settings (app w) in
  retryDelays current <> [] ->
  Forall (fun d => positiveNumber d = true
                   /\ ~ In JsStr.comma (numberToString d)
                   /\ parseFloat (JsStr.trim (numberToString d)) = d)
    (retryDelays current) ->
  apiKey current <> [] ->
  JsStr.trim (apiKey current) = apiKey current ->
  let w' := run saveSettings (run openSettings w) in
  settings (app w') = current
  /\ localStorage w' = Some current
  /\ isSettingsOpen (app w') = false
  /\ effects w'
     = effects w
       ++ (if negb (mapInitialized (app w)) && negb (yandexMapsScriptLoaded (app w))
           then [LoadYandexMapsScript] else []).
Proof.
  intros current Hne Hdelays Hkey Htrim w'.
  set (w1 := run openSettings w) in *.
  assert (Hform : tempApiKey (app w1) = apiKey current
                  /\ tempRetryCount (app w1) = retryCount current
                  /\ tempRetryDelays (app w1)
                     = JsStr.join (JsStr.lit ", "%string)
                         (map numberToString (retryDelays current))
                  /\ settings (app w1) = current
                  /\ mapInitialized (app w1) = mapInitialized (app w)
                  /\ yandexMapsScriptLoaded (app w1) = yandexMapsScriptLoaded (app w)
                  /\ effects w1 = effects w).
  { subst w1. unfold run. rewrite openSettings_eq. simpl. repeat split. }
  destruct Hform as [Hk [Hc [Hd [Hs [Hm [Hy He]]]]]].
  assert (Hparsed : parseDelays (tempRetryDelays (app w1)) = retryDelays current).
  { rewrite Hd. unfold parseDelays.
    rewrite parse_join.
    - rewrite map_map. now apply written_delays_parse_back.
    - destruct (retryDelays current); [congruence | discriminate].
    - apply Forall_map. eapply Forall_impl; [| exact Hdelays].
      intros d [_ [Hcomma _]]. exact Hcomma. }
  assert (Hdelays1 : parseDelays (tempRetryDelays (app w1)) <> [])
    by now rewrite Hparsed.
  assert (Hkey1 : JsStr.trim (tempApiKey (app w1)) <> [])
    by now rewrite Hk, Htrim.
  destruct (saveSettings_accepted_fields w1 Hdelays1 Hkey1) as [Hs' [Hl' [Ho' _]]].
  fold w' in Hs', Hl', Ho'.
  assert (Hsame : settings (app w') = current).
  { rewrite Hs', Hparsed, Hk, Hc, Htrim. destruct current; reflexivity. }
  split; [exact Hsame |]. split; [now rewrite Hl', Hsame |].
  split; [exact Ho' |].
  unfold w'. rewrite saveSettings_accepted_quietly by
    (try assumption; right; rewrite Hs, Hk, Htrim; reflexivity).
  now rewrite He, Hm, Hy.
Qed.

(** ** Further properties: the retry resolver *)

Lemma timers_app (l l' : list Effect) : timers (l ++ l') = timers l ++ timers l'.
Proof. apply flat_map_app. Qed.

Lemma lookup_clock (address : jsstring) (w : World) :
  clock w < clock (run (lookup address) w).
Proof.
  unfold lookup, run, bind. rewrite geocode_eq.
  destruct (provider (clock w) address true) as [[found |] | error];
    cbn [fst snd ret]; try (rewrite clock_suspend; simpl; lia).
  rewrite geocode_eq. cbn [fst snd].
  repeat (rewrite clock_suspend; simpl). lia.
Qed.

Lemma lookup_clock_rejected (address : jsstring) (w : World) (e : ProviderError) :
  provider (clock w) address true = Rejected e ->
  clock (run (lookup address) w) = S (clock w).
Proof.
  intro Hreply. unfold lookup, run, bind. rewrite geocode_eq, Hreply.
  cbn [fst snd]. rewrite clock_suspend. reflexivity.
Qed.

Lemma attemptCalls_calls (address : jsstring) (t : nat) :
  length (calls (attemptCalls address t)) <= 2
  /\ Forall (fun call => fst call = address) (calls (attemptCalls address t))
  /\ timers (attemptCalls address t) = [].
Proof.
  unfold attemptCalls. destruct (isEmptyReply (provider t address true)); simpl;
    repeat split; try lia; repeat constructor.
Qed.

Lemma attemptsFrom_budget n address rc rd :
  forall attempt lastError (w : World),
    n = Z.to_nat (rc - attempt + 1) ->
    exists new,
      effects (run (attemptsFrom n address rc rd attempt lastError) w)
      = effects w ++ new
      /\ length (calls new) <= 2 * n
      /\ Forall (fun call => fst call = address) (calls new)
      /\ length (timers new) <= pred n.
Proof.
  induction n as [| n IH]; intros attempt lastError w Hn.
  - exists [ErrorExhausted address lastError]. simpl.
    repeat split; try lia; constructor.
  - destruct (searchCancelled (app w)) eqn:Hflag.
    { exists []. unfold run. rewrite attemptsFrom_cancelled by assumption.
      simpl. rewrite app_nil_r. repeat split; try lia; constructor. }
    destruct (attemptCalls_calls address (clock w)) as [Hlen [Hall Htimers]].
    pose proof (lookup_effects address w) as Heff.
    remember (attemptCalls address (clock w)) as attempted eqn:Hattempted.
    clear Hattempted.
    unfold run at 1. rewrite attemptsFrom_S by assumption.
    destruct (result (lookup address) w) as [found | error].
    { exists attempted. cbn [snd]. rewrite Htimers.
      repeat split; try assumption; try lia; simpl; lia. }
    unfold bind.
    destruct (isApiKeyError error) eqn:Hkey.
    { rewrite onLookupError_key by assumption.
      exists attempted. cbn [snd effects modifyW].
      rewrite Htimers. repeat split; try assumption; try lia; simpl; lia. }
    destruct (Z.ltb_spec attempt rc) as [Hlt | Hge].
    + rewrite onLookupError_retry by assumption.
      set (w2 := run suspend _).
      destruct (IH (attempt + 1)%Z error w2 ltac:(lia)) as [new [He [Hc [Ha Ht]]]].
      rewrite (surjective_run (attemptsFrom n address rc rd (attempt + 1) error) w2).
      cbn [snd]. rewrite He.
      assert (He2 : effects w2
                    = effects w
                      ++ attempted
                      ++ [WarnRetry address attempt (delayAfter rd attempt);
                          Backoff (delayAfter rd attempt)]).
      { subst w2. rewrite effects_suspend. simpl. rewrite Heff.
        now rewrite <- !app_assoc. }
      rewrite He2.
      exists (attempted
              ++ [WarnRetry address attempt (delayAfter rd attempt);
                  Backoff (delayAfter rd attempt)] ++ new).
      rewrite !calls_app, !timers_app, Htimers, !length_app.
      repeat split.
      * now rewrite <- !app_assoc.
      * simpl. lia.
      * apply Forall_app. split; [assumption |]. simpl. assumption.
      * simpl. lia.
    + rewrite onLookupError_last by assumption.
      destruct (IH (attempt + 1)%Z error (run (lookup address) w) ltac:(lia))
        as [new [He [Hc [Ha Ht]]]].
      rewrite (surjective_run (attemptsFrom n address rc rd (attempt + 1) error)
                 (run (lookup address) w)).
      cbn [snd]. rewrite He, Heff.
      exists (attempted ++ new).
      rewrite calls_app, timers_app, Htimers, !length_app.
      repeat split.
      * now rewrite <- app_assoc.
      * lia.
      * apply Forall_app. split; assumption.
      * simpl. lia.
Qed.

(** X8.  Whatever the provider answers and whenever the user stops, one
    resolution makes at most two provider calls per allowed attempt, all of
    them for the address it was given, and starts at most [retryCount]
    timers. *)
Theorem resolver_stays_within_its_budget (address : jsstring) (w : World) :
  exists new,
    effects (run (geocodeWithRetry address) w) = effects w ++ new
    /\ length (calls new) <= 2 * Z.to_nat (maxAttempts (settings (app w)))
    /\ Forall (fun call => fst call = address) (calls new)
    /\ length (timers new) <= Z.to_nat (retryCount (settings (app w))).
Proof.
  unfold run. rewrite geocodeWithRetry_eq.
  destruct (attemptsFrom_budget
              (iterationsFrom (retryCount (settings (app w))) 0) address
              (retryCount (settings (app w))) (retryDelays (settings (app w)))
              0%Z Null w eq_refl) as [new [He [Hc [Ha Ht]]]].
  exists new. unfold maxAttempts, iterationsFrom in *.
  repeat split; try assumption.
  - replace (retryCount (settings (app w)) + 1)%Z
      with (retryCount (settings (app w)) - 0 + 1)%Z by lia. exact Hc.
  - lia.
Qed.

Lemma attemptsFrom_returns_a_reply n address rc rd :
  forall attempt lastError (w : World) first,
    result (attemptsFrom n address rc rd attempt lastError) w = Normal first ->
    exists t,
      clock w <= t < clock (run (attemptsFrom n address rc rd attempt lastError) w)
      /\ attemptReply address t = Resolved first.
Proof.
  induction n as [| n IH]; intros attempt lastError w first Hres.
  - unfold result in Hres. simpl in Hres. discriminate.
  - destruct (searchCancelled (app w)) eqn:Hflag.
    { unfold result in Hres. rewrite attemptsFrom_cancelled in Hres by assumption.
      discriminate. }
    pose proof (lookup_clock address w) as Hclock.
    pose proof (lookup_result address w) as Hlook.
    unfold result in Hres. unfold run. rewrite attemptsFrom_S in * by assumption.
    destruct (result (lookup address) w) as [found | error].
    { cbn [fst snd] in *. injection Hres as <-.
      exists (clock w). split; [lia |].
      destruct (attemptReply address (clock w)); congruence. }
    unfold bind in *.
    destruct (isApiKeyError error) eqn:Hkey.
    { rewrite onLookupError_key in Hres by assumption. discriminate. }
    destruct (Z.ltb_spec attempt rc) as [Hlt | Hge].
    + rewrite onLookupError_retry in * by assumption.
      set (w2 := run suspend _) in *.
      destruct (IH _ _ _ _ Hres) as [t [Ht Hreply]].
      exists t. split; [| exact Hreply].
      assert (clock w2 = S (clock (run (lookup address) w))).
      { subst w2. now rewrite clock_suspend. }
      unfold run in *. lia.
    + rewrite onLookupError_last in * by assumption.
      destruct (IH _ _ _ _ Hres) as [t [Ht Hreply]].
      exists t. split; [| exact Hreply]. unfold run in *. lia.
Qed.

(** X9.  What the resolver returns is what the provider answered in one of
    its attempts: a geo object it returns is the first geo object of the
    biased lookup of that attempt, or of its global lookup after an empty
    biased one; and it returns "no match" only after both lookups of one
    attempt came back empty. *)
Theorem resolver_returns_a_provider_reply
    (address : jsstring) (w : World) (first : option GeoObject) :
  result (geocodeWithRetry address) w = Normal first ->
  exists t,
    clock w <= t < clock (run (geocodeWithRetry address) w)
    /\ attemptReply address t = Resolved first
    /\ match first with
       | Some found =>
           provider t address true = Resolved (Some found)
           \/ (provider t address true = Resolved None
               /\ provider (S t) address false = Resolved (Some found))
       | None =>
           provider t address true = Resolved None
           /\ provider (S t) address false = Resolved None
       end.
Proof.
  unfold result, run. rewrite geocodeWithRetry_eq. intro Hres.
  destruct (attemptsFrom_returns_a_reply _ _ _ _ _ _ _ _ Hres) as [t [Ht Hreply]].
  exists t. split; [exact Ht |]. split; [exact Hreply |].
  unfold attemptReply in Hreply.
  destruct (provider t address true) as [[found |] | error];
    destruct first; try discriminate; auto.
Qed.

Lemma attemptsFrom_recovers address rc rd (T : nat) (found : GeoObject) :
  (forall t, userStops t = false) ->
  (forall t, t < T ->
             exists e, provider t address true = Rejected e
                       /\ isApiKeyError (ProviderFailure e) = false) ->
  (forall t, T <= t -> provider t address true = Resolved (Some found)) ->
  forall n attempt lastError (w : World),
    searchCancelled (app w) = false ->
    Z.of_nat n = (rc - attempt + 1)%Z ->
    T <= clock w + 2 * pred n ->
    0 < n ->
    result (attemptsFrom n address rc rd attempt lastError) w = Normal (Some found).
Proof.
  intros Hquiet Hdown Hup n.
  induction n as [| n IH]; intros attempt lastError w Hflag Hn HT Hpos; [lia |].
  unfold result. rewrite attemptsFrom_S by assumption.
  rewrite lookup_result. unfold attemptReply.
  destruct (Nat.le_gt_cases T (clock w)) as [Hready | Hnot].
  - rewrite (Hup (clock w) Hready). reflexivity.
  - destruct (Hdown (clock w) Hnot) as [e [Hreply Hkey]]. rewrite Hreply.
    unfold bind. rewrite onLookupError_retry by (assumption || lia).
    set (w2 := run suspend _).
    apply IH.
    + pose proof (lookup_undisturbed address w Hquiet) as Happ.
      subst w2. unfold run at 1. rewrite suspend_undisturbed by apply Hquiet.
      simpl. now rewrite Happ.
    + lia.
    + subst w2. rewrite clock_suspend. simpl.
      rewrite (lookup_clock_rejected address w e Hreply). simpl in HT. lia.
    + simpl in HT. lia.
Qed.

(** X10.  When nobody cancels, the biased lookups for an address are rejected
    with errors that are not API key errors up to some suspension [T] and find
    a geo object from [T] on, and [T] comes no later than two suspensions per
    allowed retry after the start, the resolver returns that geo object. *)
Theorem resolver_rides_out_a_short_outage
    (address : jsstring) (found : GeoObject) (T : nat) (w : World) :
  (forall t, userStops t = false) ->
  searchCancelled (app w) = false ->
  (forall t, t < T ->
             exists e, provider t address true = Rejected e
                       /\ isApiKeyError (ProviderFailure e) = false) ->
  (forall t, T <= t -> provider t address true = Resolved (Some found)) ->
  (0 <= retryCount (settings (app w)))%Z ->
  (Z.of_nat T <= Z.of_nat (clock w) + 2 * retryCount (settings (app w)))%Z ->
  result (geocodeWithRetry address) w = Normal (Some found).
Proof.
  intros Hquiet Hflag Hdown Hup Hrc HT.
  unfold result. rewrite geocodeWithRetry_eq.
  apply (attemptsFrom_recovers address _ _ T found Hquiet Hdown Hup);
    unfold iterationsFrom; try assumption; lia.
Qed.

(** ** Further properties: the batch runner *)

Lemma untouched_refl (w : World) : untouched w w.
Proof. split; auto. Qed.

Lemma untouched_trans (w1 w2 w3 : World) :
  untouched w1 w2 -> untouched w2 w3 -> untouched w1 w3.
Proof.
  intros [I1 S1 L1 K1 C1 D1 O1 R1 P1 E1] [I2 S2 L2 K2 C2 D2 O2 R2 P2 E2].
  split; try congruence.
  destruct E2 as [E2 | E2]; [| now right].
  rewrite E2. exact E1.
Qed.

Lemma sparing_ret {A} (a : A) : sparing (ret a).
Proof. intro w. apply untouched_refl. Qed.

Lemma sparing_throw {A} (t : Thrown) : sparing (@throw A t).
Proof. intro w. apply untouched_refl. Qed.

Lemma sparing_gets {A} (f : Component -> A) : sparing (gets f).
Proof. intro w. apply untouched_refl. Qed.

Lemma sparing_now : sparing now.
Proof. intro w. apply untouched_refl. Qed.

Lemma sparing_emit (e : Effect) : sparing (emit e).
Proof. intro w. split; simpl; auto. Qed.

Lemma sparing_tick : sparing tick.
Proof. intro w. split; simpl; auto. Qed.

Lemma sparing_bind {A B} (m : M A) (k : A -> M B) :
  sparing m -> (forall a, sparing (k a)) -> sparing (bind m k).
Proof.
  intros Hm Hk w. rewrite run_bind.
  destruct (result m w) as [a | t].
  - eapply untouched_trans; [apply Hm | apply Hk].
  - apply Hm.
Qed.

Lemma sparing_tryCatch {A} (m : M A) (h : Thrown -> M A) :
  sparing m -> (forall t, sparing (h t)) -> sparing (tryCatch m h).
Proof.
  intros Hm Hh w. rewrite run_tryCatch.
  destruct (result m w) as [a | t].
  - apply Hm.
  - eapply untouched_trans; [apply Hm | apply Hh].
Qed.

Lemma sparing_set_isSearching v : sparing (modify (set_isSearching v)).
Proof. intro w. split; simpl; auto. Qed.

Lemma sparing_set_searchCancelled v : sparing (modify (set_searchCancelled v)).
Proof. intro w. split; simpl; auto. Qed.

Lemma sparing_set_totalAddressesCount v : sparing (modify (set_totalAddressesCount v)).
Proof. intro w. split; simpl; auto. Qed.

Lemma sparing_set_key_error : sparing (modify (set_mapError (Some msgBadApiKey))).
Proof. intro w. split; simpl; auto. Qed.

(** Writes to the three results of a search. *)
Lemma sparing_results (f : Component -> Component) :
  (forall c, exists found notFound placemarks,
      f c = set_foundAddressesCount found
              (set_notFoundAddresses notFound
                 (set_geoObjectsCollection placemarks c))) ->
  sparing (modify f).
Proof.
  intros Hf w. destruct (Hf (app w)) as [found [notFound [placemarks E]]].
  split; simpl; rewrite ?E; simpl; auto.
Qed.

Lemma sparing_set_geoObjectsCollection v : sparing (modify (set_geoObjectsCollection v)).
Proof.
  apply sparing_results. intro c.
  exists (foundAddressesCount c), (notFoundAddresses c), v. reflexivity.
Qed.

Lemma sparing_set_foundAddressesCount (g : Component -> nat) :
  sparing (modify (fun c => set_foundAddressesCount (g c) c)).
Proof.
  apply sparing_results. intro c.
  exists (g c), (notFoundAddresses c), (geoObjectsCollection c). reflexivity.
Qed.

Lemma sparing_set_notFoundAddresses (g : Component -> list jsstring) :
  sparing (modify (fun c => set_notFoundAddresses (g c) c)).
Proof.
  apply sparing_results. intro c.
  exists (foundAddressesCount c), (g c), (geoObjectsCollection c). reflexivity.
Qed.

Lemma sparing_addPlacemark coords index original found :
  sparing (addPlacemark coords index original found).
Proof.
  unfold addPlacemark. apply sparing_results. intro c.
  eexists (foundAddressesCount c), (notFoundAddresses c), _. reflexivity.
Qed.

Create HintDb sparing.
#[local] Hint Resolve sparing_ret sparing_throw sparing_gets sparing_now
  sparing_emit sparing_tick sparing_set_isSearching sparing_set_searchCancelled
  sparing_set_totalAddressesCount sparing_set_key_error
  sparing_set_geoObjectsCollection sparing_addPlacemark : sparing.

(** Splits a sequence of statements and closes those known to be sparing;
    branches on the conditions it meets. *)
Ltac sparing_steps :=
  repeat first
    [ solve [auto with sparing]
    | apply sparing_set_foundAddressesCount
    | apply sparing_set_notFoundAddresses
    | apply sparing_bind; [| intro]
    | apply sparing_tryCatch; [| intro]
    | match goal with
      | |- sparing (if ?b then _ else _) => destruct b
      | |- sparing (match ?x with _ => _ end) => destruct x
      end ].

Lemma sparing_stopSearch : sparing stopSearch.
Proof. unfold stopSearch. sparing_steps. Qed.

#[local] Hint Resolve sparing_stopSearch : sparing.

Lemma sparing_suspend : sparing suspend.
Proof. unfold suspend. sparing_steps. Qed.

#[local] Hint Resolve sparing_suspend : sparing.

Lemma sparing_geocode address bounded : sparing (geocode address bounded).
Proof. unfold geocode. sparing_steps. Qed.

Lemma sparing_sleep timer : sparing (sleep timer).
Proof. unfold sleep. sparing_steps. Qed.

#[local] Hint Resolve sparing_geocode sparing_sleep : sparing.

Lemma sparing_lookup address : sparing (lookup address).
Proof. unfold lookup. sparing_steps. Qed.

Lemma sparing_onLookupError address rc rd attempt error :
  sparing (onLookupError address rc rd attempt error).
Proof. unfold onLookupError. sparing_steps. Qed.

#[local] Hint Resolve sparing_lookup sparing_onLookupError : sparing.

Lemma sparing_attemptsFrom n address rc rd :
  forall attempt lastError, sparing (attemptsFrom n address rc rd attempt lastError).
Proof.
  induction n as [| n IH]; intros attempt lastError; simpl; sparing_steps.
Qed.

Lemma sparing_geocodeWithRetry address : sparing (geocodeWithRetry address).
Proof.
  unfold geocodeWithRetry. sparing_steps. apply sparing_attemptsFrom.
Qed.

#[local] Hint Resolve sparing_geocodeWithRetry : sparing.

Lemma sparing_processAddress i address : sparing (processAddress i address).
Proof. unfold processAddress. sparing_steps. Qed.

#[local] Hint Resolve sparing_processAddress : sparing.

Lemma sparing_searchFrom addresses : forall i, sparing (searchFrom i addresses).
Proof.
  induction addresses as [| address rest IH]; intro i; simpl; sparing_steps.
Qed.

Lemma sparing_startSearch : sparing startSearch.
Proof.
  unfold startSearch. sparing_steps. apply sparing_searchFrom.
Qed.


Lemma labels_length (placemarks : list Placemark) :
  length (labels placemarks) = length placemarks.
Proof. apply length_map. Qed.

(** The end of a run on an initialised map, in the two shapes it has. *)
Lemma startSearch_ends (w : World) :
  mapInitialized (app w) = true ->
  exists w1 tail,
    run startSearch w = modifyW (set_isSearching false) (tail w1)
    /\ app (tail w1) = app w1
    /\ ((w1 = sessionStarted w /\ parseAddresses (addressesInput (app w)) = [])
        \/ w1 = run (searchFrom 0 (parseAddresses (addressesInput (app w))))
                  (sessionStarted w)).
Proof.
  intro Hready. rewrite startSearch_run by assumption.
  destruct (length (parseAddresses (addressesInput (app w))) =? 0)%nat eqn:Hempty.
  - exists (sessionStarted w), (fun v => v).
    apply Nat.eqb_eq, length_zero_iff_nil in Hempty. auto.
  - eexists _, (fun v => if (0 <? length (geoObjectsCollection (app v)))%nat
                         then emitW SetBounds v else v).
    split; [reflexivity |]. split; [| right; reflexivity].
    destruct (0 <? _)%nat; reflexivity.
Qed.

(** X12.  When a search on an initialised map is over, the component is not
    searching and the map's collection holds as many placemarks as
    [foundAddressesCount] says. *)
Theorem search_ends_idle_with_one_placemark_per_found (w : World) :
  mapInitialized (app w) = true ->
  let w' := run startSearch w in
  isSearching (app w') = false
  /\ length (geoObjectsCollection (app w')) = foundAddressesCount (app w').
Proof.
  intros Hready w'. subst w'.
  destruct (startSearch_ends w Hready) as [w1 [tail [Hrun [Htail Hw1]]]].
  rewrite Hrun. cbn [app modifyW]. split; [reflexivity |].
  cbn [set_isSearching geoObjectsCollection foundAddressesCount]. rewrite Htail.
  destruct Hw1 as [[-> _] | ->]; [reflexivity |].
  destruct (searchFrom_order (parseAddresses (addressesInput (app w))) 0
              (sessionStarted w)) as [outcomes [_ [_ [_ [Hlabels [_ Hfound]]]]]].
  rewrite <- labels_length, Hlabels, Hfound. reflexivity.
Qed.

(** The loop over a list that begins with [before], when it gets through
    [before] with the flag down. *)
Lemma searchFrom_app (before : list jsstring) :
  forall i more (w : World),
    searchCancelled (app (run (searchFrom i before) w)) = false ->
    run (searchFrom i (before ++ more)) w
    = run (searchFrom (i + length before) more) (run (searchFrom i before) w).
Proof.
  induction before as [| a before IH]; intros i more w Hend.
  - cbn [List.app length]. rewrite Nat.add_0_r. reflexivity.
  - destruct (searchCancelled (app w)) eqn:Hflag.
    + unfold run in Hend. rewrite searchFrom_stopped in Hend by assumption.
      cbn [snd] in Hend. change (app (emitW LogStopped w)) with (app w) in Hend.
      congruence.
    + rewrite <- app_comm_cons. rewrite !run_searchFrom_cons by assumption.
      rewrite run_searchFrom_cons in Hend by assumption.
      destruct (processAddress_normal i a w) as [[|] Hleave]; rewrite Hleave in *.
      * rewrite processAddress_leave in Hend by assumption. discriminate.
      * cbn [length]. rewrite Nat.add_succ_r. apply IH. exact Hend.
Qed.

(** The fields when the loop is left after an address that threw. *)
Lemma halted_after_throw (address : jsstring) (error : Thrown) (v : World) :
  let w' :=
    finishSearch
      (run stopSearch
         (modifyW
            (fun c => set_notFoundAddresses (notFoundAddresses c ++ [address]) c)
            (emitW (ErrorGeocoding address error) v))) in
  notFoundAddresses (app w') = notFoundAddresses (app v) ++ [address]
  /\ foundAddressesCount (app w') = foundAddressesCount (app v)
  /\ geoObjectsCollection (app w') = geoObjectsCollection (app v)
  /\ searchCancelled (app w') = true
  /\ isSearching (app w') = false
  /\ effects w'
     = effects v
       ++ ErrorGeocoding address error
          :: (if (0 <? length (geoObjectsCollection (app v)))%nat
              then [SetBounds] else [])
  /\ clock w' = clock v.
Proof.
  intro w'. subst w'. unfold finishSearch.
  change (geoObjectsCollection
            (app (run stopSearch
                    (modifyW
                       (fun c => set_notFoundAddresses
                                   (notFoundAddresses c ++ [address]) c)
                       (emitW (ErrorGeocoding address error) v)))))
    with (geoObjectsCollection (app v)).
  destruct (0 <? length (geoObjectsCollection (app v)))%nat;
    repeat split; try reflexivity.
  cbn [effects modifyW emitW run stopSearch]. unfold run, stopSearch, bind, modify.
  cbn [fst snd effects modifyW emitW]. now rewrite <- app_assoc.
Qed.

(** X13.  When [mapError] is already set as a search starts, an address, at
    whatever position, that the loop reaches with the search not cancelled
    and whose resolution throws, whatever the error, ends the batch, so that
    it is the first and the only one to throw: the address is appended to
    [notFoundAddresses] after the results of the addresses before it, the
    search is cancelled, and the addresses after it are never looked up. *)
Theorem stale_mapError_makes_any_failure_fatal
    (before : list jsstring) (address : jsstring) (rest : list jsstring)
    (w : World) (error : Thrown) :
  mapInitialized (app w) = true ->
  truthy (mapError (app w)) = true ->
  parseAddresses (addressesInput (app w)) = before ++ address :: rest ->
  let reached := run (searchFrom 0 before) (sessionStarted w) in
  searchCancelled (app reached) = false ->
  result (geocodeWithRetry address) reached = Abrupt error ->
  let resolved := run (geocodeWithRetry address) reached in
  let w' := run startSearch w in
  notFoundAddresses (app w') = notFoundAddresses (app reached) ++ [address]
  /\ foundAddressesCount (app w') = foundAddressesCount (app reached)
  /\ geoObjectsCollection (app w') = geoObjectsCollection (app reached)
  /\ searchCancelled (app w') = true
  /\ isSearching (app w') = false
  /\ effects w'
     = effects resolved
       ++ ErrorGeocoding address error
          :: (if (0 <? length (geoObjectsCollection (app reached)))%nat
              then [SetBounds] else [])
  /\ calls (effects w') = calls (effects resolved)
  /\ clock w' = clock resolved.
Proof.
  intros Hready Hshown Haddresses reached Hdown Hres resolved w'.
  assert (Hreached : truthy (mapError (app reached)) = true).
  { destruct (untouched_error _ _ (sparing_searchFrom before 0 (sessionStarted w)))
      as [E | E]; fold reached in E; rewrite E; [exact Hshown | reflexivity]. }
  assert (Hstill : truthy (mapError (app resolved)) = true).
  { destruct (untouched_error _ _ (sparing_geocodeWithRetry address reached))
      as [E | E]; fold resolved in E; rewrite E; [exact Hreached | reflexivity]. }
  pose proof (during_app _ _ (quiet_geocodeWithRetry address reached)) as Hsame.
  fold resolved in Hsame. unfold sameSession in Hsame.
  destruct Hsame as [_ [Hfound [_ [Hnot [Hcoll _]]]]].
  assert (Hfinal : w' = finishSearch
                          (run stopSearch
                             (modifyW
                                (fun c => set_notFoundAddresses
                                            (notFoundAddresses c ++ [address]) c)
                                (emitW (ErrorGeocoding address error) resolved)))).
  { subst w'. rewrite startSearch_run by assumption. rewrite Haddresses.
    replace (length (before ++ address :: rest) =? 0)%nat with false
      by (symmetry; apply Nat.eqb_neq; rewrite length_app; cbn [length]; lia).
    rewrite searchFrom_app by exact Hdown. fold reached.
    rewrite run_searchFrom_cons by exact Hdown.
    unfold result, run at 1 2. rewrite processAddress_eq, Hres. cbv zeta.
    fold resolved. rewrite Hstill. reflexivity. }
  clearbody resolved reached w'. subst w'.
  destruct (halted_after_throw address error resolved)
    as [Hn [Hf [Hg [Hc [Hi [He Hk]]]]]].
  rewrite Hn, Hf, Hg, Hc, Hi, He, Hk, Hnot, Hfound, Hcoll.
  repeat split; try reflexivity.
  unfold calls. rewrite flat_map_app.
  destruct (0 <? length (geoObjectsCollection (app reached)))%nat;
    cbn [flat_map List.app]; apply app_nil_r.
Qed.

(** X14.  When the action the button starts is over, be it the stop of a
    search or a whole search, the component is not searching. *)
Theorem toggleSearch_ends_idle (w : World) :
  isSearching (app (run toggleSearch w)) = false.
Proof.
  unfold toggleSearch. rewrite run_bind. unfold result, run at 2, gets.
  cbn [fst snd].
  destruct (isSearching (app w)) eqn:Hsearching; [reflexivity |].
  destruct (mapInitialized (app w)) eqn:Hready.
  - destruct (startSearch_ends w Hready) as [w1 [tail [Hrun _]]].
    rewrite Hrun. reflexivity.
  - unfold run. rewrite startSearch_not_ready by assumption. exact Hsearching.
Qed.

(** X15.  Under a negative retry count the resolver asks the provider
    nothing and starts no timer: it logs the failure and throws [null]. *)
Theorem negative_retryCount_asks_nothing (address : jsstring) (w : World) :
  (retryCount (settings (app w)) < 0)%Z ->
  geocodeWithRetry address w
  = (Abrupt Null, emitW (ErrorExhausted address Null) w).
Proof.
  intro Hneg. rewrite geocodeWithRetry_eq.
  replace (iterationsFrom (retryCount (settings (app w))) 0) with 0
    by (unfold iterationsFrom; lia).
  reflexivity.
Qed.

(** ** Further properties: searches under a provider that ignores time *)

Lemma attemptReply_timeless (address : jsstring) (t : nat) :
  timeless -> attemptReply address t = attemptReply address 0.
Proof.
  intro Htimeless. unfold attemptReply.
  rewrite (Htimeless t address true), (Htimeless (S t) address false),
    (Htimeless 1 address false).
  reflexivity.
Qed.

Lemma sleep_undisturbed (timer : Effect) (w : World) :
  (forall t, userStops t = false) -> app (run (sleep timer) w) = app w.
Proof.
  intro Hquiet. unfold run. rewrite sleep_eq. cbn [snd]. unfold run.
  rewrite suspend_undisturbed by apply Hquiet. reflexivity.
Qed.

Lemma geocodeWithRetry_timeless (address : jsstring) (w : World) :
  timeless ->
  (forall t, userStops t = false) ->
  searchCancelled (app w) = false ->
  harmless (retryCount (settings (app w))) address ->
  result (geocodeWithRetry address) w
  = outcomeOf (retryCount (settings (app w))) address
  /\ app (run (geocodeWithRetry address) w) = app w.
Proof.
  intros Htimeless Hquiet Hflag Hharmless.
  unfold harmless, outcomeOf in *.
  destruct (Z.ltb_spec (retryCount (settings (app w))) 0) as [Hneg | Hpos].
  { unfold result, run. rewrite geocodeWithRetry_eq.
    replace (iterationsFrom (retryCount (settings (app w))) 0) with 0
      by (unfold iterationsFrom; lia).
    split; reflexivity. }
  unfold result, run. rewrite geocodeWithRetry_eq.
  assert (Hn : exists n, iterationsFrom (retryCount (settings (app w))) 0 = S n).
  { exists (Z.to_nat (retryCount (settings (app w)))). unfold iterationsFrom. lia. }
  destruct Hn as [n Hn].
  destruct (attemptReply address 0) as [first | e] eqn:Hreply.
  - rewrite Hn, attemptsFrom_S by assumption.
    rewrite lookup_result, attemptReply_timeless, Hreply by assumption.
    split; [reflexivity | now apply lookup_undisturbed].
  - destruct (attemptsFrom_failing address (retryCount (settings (app w)))
                (retryDelays (settings (app w))) Hquiet) with
      (n := iterationsFrom (retryCount (settings (app w))) 0)
      (attempt := 0%Z) (lastError := Null) (w := w)
      as [starts [_ [Happ [_ Hres]]]].
    + intro t. exists e. rewrite attemptReply_timeless by assumption.
      split; assumption.
    + assumption.
    + unfold iterationsFrom. lia.
    + split; [| exact Happ].
      destruct Hres as [[Hzero _] | [e' [He' Hres]]]; [congruence |].
      rewrite attemptReply_timeless, Hreply in He' by assumption.
      injection He' as <-. exact Hres.
Qed.

(** Two components with the same fields are the same. *)
Lemma component_ext (c c' : Component) :
  addressesInput c = addressesInput c' ->
  isSearching c = isSearching c' ->
  foundAddressesCount c = foundAddressesCount c' ->
  totalAddressesCount c = totalAddressesCount c' ->
  notFoundAddresses c = notFoundAddresses c' ->
  mapError c = mapError c' ->
  mapInitialized c = mapInitialized c' ->
  isSettingsOpen c = isSettingsOpen c' ->
  settings c = settings c' ->
  tempApiKey c = tempApiKey c' ->
  tempRetryCount c = tempRetryCount c' ->
  tempRetryDelays c = tempRetryDelays c' ->
  geoObjectsCollection c = geoObjectsCollection c' ->
  searchCancelled c = searchCancelled c' ->
  yandexMapsScriptLoaded c = yandexMapsScriptLoaded c' ->
  c = c'.
Proof.
  destruct c, c'. cbn. intros. subst. reflexivity.
Qed.

Lemma settle_nil (rc : Z) (i : nat) (c : Component) : settle rc i [] c = c.
Proof.
  apply component_ext; unfold settle; cbn; rewrite ?Nat.add_0_r, ?app_nil_r;
    reflexivity.
Qed.

Lemma settle_cons (rc : Z) (i : nat) (address : jsstring) (rest : list jsstring)
    (c : Component) :
  settle rc (S i) rest (settle rc i [address] c) = settle rc i (address :: rest) c.
Proof.
  apply component_ext; unfold settle; rewrite ?numbered_cons;
    cbn [addressesInput isSearching foundAddressesCount totalAddressesCount
           notFoundAddresses mapError mapInitialized isSettingsOpen settings
           tempApiKey tempRetryCount tempRetryDelays geoObjectsCollection
           searchCancelled yandexMapsScriptLoaded
           set_foundAddressesCount set_notFoundAddresses set_geoObjectsCollection];
    try reflexivity.
  - cbn [filter length]. destruct (isFound rc address); cbn [length]; lia.
  - cbn [filter]. destruct (isFound rc address); cbn [negb app];
      rewrite <- ?app_assoc; reflexivity.
  - change (numbered i [address]) with [(i + 1, address)].
    cbn [flat_map]. rewrite app_nil_r, <- app_assoc. reflexivity.
Qed.

Lemma settle_one (rc : Z) (i : nat) (address : jsstring) (c : Component) :
  settle rc i [address] c =
  match outcomeOf rc address with
  | Normal (Some found) =>
      set_foundAddressesCount (foundAddressesCount c + 1)
        (set_geoObjectsCollection
           (geoObjectsCollection c
            ++ [{| placemarkCoords := coordinates found;
                   placemarkIndex := i + 1;
                   originalAddress := address;
                   foundAddress := addressLine found |}]) c)
  | _ => set_notFoundAddresses (notFoundAddresses c ++ [address]) c
  end.
Proof.
  unfold settle. change (numbered i [address]) with [(i + 1, address)].
  cbn [flat_map filter]. unfold isFound, placemarkOf. cbn [snd fst].
  destruct (outcomeOf rc address) as [[found |] | error];
    cbn [negb length app]; apply component_ext;
    cbn [addressesInput isSearching foundAddressesCount totalAddressesCount
           notFoundAddresses mapError mapInitialized isSettingsOpen settings
           tempApiKey tempRetryCount tempRetryDelays geoObjectsCollection
           searchCancelled yandexMapsScriptLoaded
           set_foundAddressesCount set_notFoundAddresses set_geoObjectsCollection];
    rewrite ?app_nil_r, ?Nat.add_0_r; reflexivity.
Qed.

Lemma processAddress_timeless (i : nat) (address : jsstring) (w : World) :
  timeless ->
  (forall t, userStops t = false) ->
  searchCancelled (app w) = false ->
  truthy (mapError (app w)) = false ->
  harmless (retryCount (settings (app w))) address ->
  result (processAddress i address) w = Normal false
  /\ app (run (processAddress i address) w)
     = settle (retryCount (settings (app w))) i [address] (app w).
Proof.
  intros Htimeless Hquiet Hflag Hclear Hharmless.
  destruct (geocodeWithRetry_timeless address w Htimeless Hquiet Hflag Hharmless)
    as [Hres Happ].
  unfold result, run. rewrite processAddress_eq, Hres, settle_one. cbv zeta.
  remember (run (geocodeWithRetry address) w) as resolved eqn:Hresolved.
  clear Hresolved Hres.
  destruct (outcomeOf (retryCount (settings (app w))) address)
    as [[found |] | error].
  - cbn [fst snd app modifyW]. rewrite Happ. split; reflexivity.
  - cbn [fst snd app modifyW emitW]. rewrite Happ. split; reflexivity.
  - rewrite Happ, Hclear. cbn [fst snd app modifyW emitW]. rewrite Happ.
    split; reflexivity.
Qed.

Lemma searchFrom_timeless (addresses : list jsstring) :
  timeless ->
  (forall t, userStops t = false) ->
  forall i (w : World),
    searchCancelled (app w) = false ->
    truthy (mapError (app w)) = false ->
    Forall (harmless (retryCount (settings (app w)))) addresses ->
    app (run (searchFrom i addresses) w)
    = settle (retryCount (settings (app w))) i addresses (app w).
Proof.
  intros Htimeless Hquiet.
  induction addresses as [| address rest IH]; intros i w Hflag Hclear Hall.
  - now rewrite settle_nil.
  - inversion Hall as [| a l Hhead Htail]; subst.
    destruct (processAddress_timeless i address w Htimeless Hquiet Hflag Hclear Hhead)
      as [Hres Happ].
    rewrite run_searchFrom_cons, Hres by assumption.
    set (w2 := run (sleep (Pause GEOCODE_DELAY_MS)) (run (processAddress i address) w)).
    assert (Happ2 : app w2
                    = settle (retryCount (settings (app w))) i [address] (app w)).
    { subst w2. now rewrite sleep_undisturbed. }
    rewrite IH; rewrite Happ2; try assumption; try reflexivity.
    apply settle_cons.
Qed.

Lemma startSearch_timeless (w : World) :
  timeless ->
  (forall t, userStops t = false) ->
  mapInitialized (app w) = true ->
  truthy (mapError (app w)) = false ->
  Forall (harmless (retryCount (settings (app w))))
    (parseAddresses (addressesInput (app w))) ->
  app (run startSearch w)
  = set_isSearching false
      (settle (retryCount (settings (app w))) 0
         (parseAddresses (addressesInput (app w))) (app (sessionStarted w))).
Proof.
  intros Htimeless Hquiet Hready Hclear Hall.
  destruct (startSearch_ends w Hready) as [w1 [tail [Hrun [Htail Hw1]]]].
  rewrite Hrun. cbn [app modifyW]. rewrite Htail. f_equal.
  destruct Hw1 as [[-> Hnone] | ->].
  - rewrite Hnone. now rewrite settle_nil.
  - apply (searchFrom_timeless _ Htimeless Hquiet 0 (sessionStarted w));
      [reflexivity | exact Hclear | exact Hall].
Qed.

(** X16.  Under a provider whose answers do not depend on time, with nobody
    cancelling, no error shown beforehand and no address resolving to an API
    key error, a search is decided by the input alone: the collection holds,
    in input order and numbered by position, a placemark for each address
    that the biased lookup, or the global one after an empty biased one,
    finds; [notFoundAddresses] holds the other addresses in input order; the
    counters agree with both; and the search ends uncancelled. *)
Theorem timeless_provider_decides_the_results (w : World) :
  let rc := retryCount (settings (app w)) in
  let addresses := parseAddresses (addressesInput (app w)) in
  timeless ->
  (forall t, userStops t = false) ->
  mapInitialized (app w) = true ->
  truthy (mapError (app w)) = false ->
  Forall (harmless rc) addresses ->
  let w' := run startSearch w in
  geoObjectsCollection (app w') = flat_map (placemarkOf rc) (numbered 0 addresses)
  /\ notFoundAddresses (app w') = filter (fun a => negb (isFound rc a)) addresses
  /\ foundAddressesCount (app w') = length (filter (isFound rc) addresses)
  /\ totalAddressesCount (app w') = length addresses
  /\ searchCancelled (app w') = false
  /\ isSearching (app w') = false.
Proof.
  intros rc addresses Htimeless Hquiet Hready Hclear Hall w'. subst w'.
  rewrite (startSearch_timeless w Htimeless Hquiet Hready Hclear Hall).
  fold rc. fold addresses. simpl. repeat split; reflexivity.
Qed.

(** The component at the start of the loop depends on the fields that a
    search does not write only. *)
Lemma sessionStarted_app (w w' : World) :
  addressesInput (app w') = addressesInput (app w) ->
  mapError (app w') = mapError (app w) ->
  mapInitialized (app w') = mapInitialized (app w) ->
  isSettingsOpen (app w') = isSettingsOpen (app w) ->
  settings (app w') = settings (app w) ->
  tempApiKey (app w') = tempApiKey (app w) ->
  tempRetryCount (app w') = tempRetryCount (app w) ->
  tempRetryDelays (app w') = tempRetryDelays (app w) ->
  yandexMapsScriptLoaded (app w') = yandexMapsScriptLoaded (app w) ->
  app (sessionStarted w') = app (sessionStarted w).
Proof.
  intros Hi He Hm Ho Hs Hk Hc Hd Hy.
  apply component_ext; unfold sessionStarted;
    cbn [app modifyW addressesInput isSearching foundAddressesCount
           totalAddressesCount notFoundAddresses mapError mapInitialized
           isSettingsOpen settings tempApiKey tempRetryCount tempRetryDelays
           geoObjectsCollection searchCancelled yandexMapsScriptLoaded
           set_isSearching set_searchCancelled set_geoObjectsCollection
           set_foundAddressesCount set_notFoundAddresses set_totalAddressesCount];
    try assumption; try reflexivity.
  now rewrite Hi.
Qed.

(** X17.  Under the same conditions a second search on the same input leaves
    every field of the component as the first search left it: the same
    counters, the same [notFoundAddresses] and the same placemarks. *)
Theorem repeated_search_gives_the_same_component (w : World) :
  timeless ->
  (forall t, userStops t = false) ->
  mapInitialized (app w) = true ->
  truthy (mapError (app w)) = false ->
  Forall (harmless (retryCount (settings (app w))))
    (parseAddresses (addressesInput (app w))) ->
  app (run startSearch (run startSearch w)) = app (run startSearch w).
Proof.
  intros Htimeless Hquiet Hready Hclear Hall.
  pose proof (startSearch_timeless w Htimeless Hquiet Hready Hclear Hall) as Hfirst.
  destruct (sparing_startSearch w) as [Hi Hs _ Hk Hc Hd Ho Hm Hy _].
  remember (run startSearch w) as w1 eqn:Hw1 in *. clear Hw1.
  assert (He : mapError (app w1) = mapError (app w)) by (rewrite Hfirst; reflexivity).
  rewrite startSearch_timeless; try assumption.
  - rewrite Hs, Hi, (sessionStarted_app w w1) by assumption.
    symmetry. exact Hfirst.
  - now rewrite Hm.
  - now rewrite He.
  - now rewrite Hs, Hi.
Qed.

(** ** Further properties: waiting for the map script *)

Lemma iter_tick_clock (n : nat) (w : World) :
  clock (Nat.iter n tickW w) = clock w + n.
Proof.
  induction n as [| n IH]; simpl; [lia | rewrite IH; lia].
Qed.

Lemma iter_tick_shift (n : nat) (w : World) :
  Nat.iter n tickW (tickW w) = Nat.iter (S n) tickW w.
Proof.
  induction n as [| n IH]; [reflexivity |].
  simpl in *. now rewrite IH.
Qed.

(** Firings at which the script is not ready, while the counter stays within
    its limit, only let time pass. *)
Lemma firings_not_ready (n : nat) :
  forall attempts (w : World) extra,
    (forall j, 1 <= j <= n -> ymapsReady (clock w + j) = false) ->
    attempts + n <= 30 ->
    intervalFirings (n + extra) attempts w
    = intervalFirings extra (attempts + n) (Nat.iter n tickW w).
Proof.
  induction n as [| n IH]; intros attempts w extra Hnot Hlimit.
  - simpl. now rewrite Nat.add_0_r.
  - cbn [Nat.add intervalFirings]. unfold bind at 1 2, tick, now. cbn [fst snd].
    change (clock (tickW w)) with (S (clock w)).
    replace (S (clock w)) with (clock w + 1) by lia.
    rewrite (Hnot 1) by lia.
    destruct (Nat.ltb_spec 30 (attempts + 1)); [lia |].
    rewrite IH.
    + rewrite iter_tick_shift. f_equal. lia.
    + intros j Hj. change (clock (tickW w)) with (S (clock w)).
      replace (S (clock w) + j) with (clock w + S j) by lia.
      apply Hnot. lia.
    + lia.
Qed.

(** X18.  When the map script is not ready at any of the first 31 firings of
    the polling interval, the polling stops at the 31st firing, not before,
    by setting [mapError]; [initializeMap] is not called, and later firings
    change nothing. *)
Theorem polling_gives_up_at_the_31st_firing (w : World) :
  (forall j, 1 <= j <= 31 -> ymapsReady (clock w + j) = false) ->
  (forall firings, firings <= 30 ->
     initializeMapWithRetry firings w = (Normal false, Nat.iter firings tickW w))
  /\ (forall extra,
        initializeMapWithRetry (31 + extra) w
        = (Normal true,
           modifyW (set_mapError (Some msgYmapsTimeout)) (Nat.iter 31 tickW w))).
Proof.
  intro Hnot. unfold initializeMapWithRetry. split.
  - intros firings Hle.
    replace firings with (firings + 0) at 1 by lia.
    rewrite firings_not_ready; [reflexivity | | lia].
    intros j Hj. apply Hnot. lia.
  - intro extra.
    change (31 + extra) with (30 + S extra).
    rewrite firings_not_ready; [| intros j Hj; apply Hnot; lia | lia].
    cbn [Nat.add intervalFirings]. unfold bind at 1 2, tick, now. cbn [fst snd].
    change (clock (tickW (Nat.iter 30 tickW w)))
      with (S (clock (Nat.iter 30 tickW w))).
    rewrite iter_tick_clock.
    replace (S (clock w + 30)) with (clock w + 31) by lia.
    rewrite (Hnot 31) by lia.
    reflexivity.
Qed.

(** X19.  When the map script is first ready at the [k]-th firing of the
    polling interval, for some [k] from 1 to 31, the polling stops at that
    firing: [initializeMap] is called then, once, [mapError] is not written by
    the polling, and later firings change nothing. *)
Theorem polling_starts_the_map_at_the_first_ready_firing (k : nat) (w : World) :
  1 <= k <= 31 ->
  (forall j, 1 <= j < k -> ymapsReady (clock w + j) = false) ->
  ymapsReady (clock w + k) = true ->
  forall extra,
    initializeMapWithRetry (k + extra) w
    = (initializeMap;; ret true) (Nat.iter k tickW w).
Proof.
  intros Hk Hnot Hready extra. unfold initializeMapWithRetry.
  destruct k as [| k']; [lia |].
  replace (S k' + extra) with (k' + S extra) by lia.
  rewrite firings_not_ready; [| intros j Hj; apply Hnot; lia | lia].
  cbn [Nat.add intervalFirings]. unfold bind at 1 2, tick, now. cbn [fst snd].
  change (clock (tickW (Nat.iter k' tickW w)))
    with (S (clock (Nat.iter k' tickW w))).
  rewrite iter_tick_clock.
  replace (S (clock w + k')) with (clock w + S k') by lia.
  rewrite Hready. reflexivity.
Qed.

End Pipeline.

(** ** The theorems at sample inputs *)

Lemma startSearch_before_map_ready_witness :
  startSearch alwaysFound neverStops initialWorld
  = (Normal tt, emitW (Alert msgMapNotReady) initialWorld).
Proof.
  apply (startSearch_before_map_ready alwaysFound neverStops initialWorld).
  reflexivity.
Defined.

Lemma global_lookup_only_after_empty_biased_witness :
  attemptsFrom alwaysEmpty neverStops 3 addressA 2 [1%float; 2%float] 0 Null readyWorld
  = (Normal None, run (lookup alwaysEmpty neverStops addressA) readyWorld)
  /\ effects (run (lookup alwaysEmpty neverStops addressA) readyWorld)
     = effects readyWorld ++ [Geocode addressA true; Geocode addressA false].
Proof.
  apply (proj2 (proj2 (global_lookup_only_after_empty_biased
                         alwaysEmpty neverStops addressA readyWorld)));
    reflexivity.
Defined.

Lemma api_key_error_is_not_retried_witness :
  result (attemptsFrom alwaysForbidden neverStops 3 addressA 2 [1%float; 2%float]
            0 Null) readyWorld
  = Abrupt (ProviderFailure forbidden).
Proof.
  apply (api_key_error_is_not_retried alwaysForbidden neverStops 2 addressA 2
           [1%float; 2%float] 0%Z Null readyWorld forbidden);
    reflexivity.
Defined.

Lemma backoff_before_attempt_witness :
  exists d,
    nth_error [1%float; 2%float] 1 = Some d
    /\ ((2 - 1 < 2)%Z ->
        attemptsFrom alwaysFailing neverStops (iterationsFrom 2 (2 - 1)) addressA 2
          [1%float; 2%float] (2 - 1) Null readyWorld
        = attemptsFrom alwaysFailing neverStops (iterationsFrom 2 2) addressA 2
            [1%float; 2%float] 2 (ProviderFailure serverError)
            (run (suspend neverStops)
               (emitW (Backoff (Some d))
                  (emitW (WarnRetry addressA (2 - 1) (Some d))
                     (run (lookup alwaysFailing neverStops addressA) readyWorld)))))
    /\ ((2 - 1 = 2)%Z ->
        attemptsFrom alwaysFailing neverStops (iterationsFrom 2 (2 - 1)) addressA 2
          [1%float; 2%float] (2 - 1) Null readyWorld
        = (Abrupt (ProviderFailure serverError),
           emitW (ErrorExhausted addressA (ProviderFailure serverError))
             (run (lookup alwaysFailing neverStops addressA) readyWorld))).
Proof.
  apply (backoff_before_attempt alwaysFailing neverStops addressA 2
           [1%float; 2%float] 2 Null readyWorld (ProviderFailure serverError)).
  - discriminate.
  - lia.
  - reflexivity.
  - reflexivity.
  - reflexivity.
Defined.




Lemma api_key_error_on_first_job_halts_batch_witness :
  notFoundAddresses (app (run (startSearch alwaysForbidden neverStops) readyWorld))
  = [addressA]
  /\ searchCancelled (app (run (startSearch alwaysForbidden neverStops) readyWorld))
     = true.
Proof.
  pose proof (api_key_error_on_first_job_halts_batch alwaysForbidden neverStops
                addressA [addressB] readyWorld (ProviderFailure forbidden)
                eq_refl eq_refl eq_refl eq_refl) as H.
  split; [apply H | apply (proj1 (proj2 H))].
Defined.



Lemma total_counts_nonblank_lines_witness :
  parseAddresses (addressesInput (app spacedWorld)) = [addressA; addressB]
  /\ length (JsStr.split JsStr.newline (addressesInput (app spacedWorld))) = 3
  /\ totalAddressesCount (app (run (startSearch onlyAFound neverStops) spacedWorld))
     = 2.
Proof.
  pose proof (total_counts_nonblank_lines onlyAFound neverStops spacedWorld eq_refl)
    as [Hjobs [Htotal _]].
  split; [exact Hjobs |]. split; [reflexivity | exact Htotal].
Defined.

Lemma saved_delays_nonempty_positive_witness :
  saveSettings sampleParseFloat badDelaysWorld
  = (Normal tt, emitW (Alert msgBadDelays) badDelaysWorld)
  /\ persisted (run (saveSettings sampleParseFloat) badDelaysWorld)
     = persisted badDelaysWorld
  /\ retryDelays (settings (app (run (saveSettings sampleParseFloat) badDelaysWorld)))
     <> [].
Proof.
  pose proof (saved_delays_nonempty_positive sampleParseFloat badDelaysWorld)
    as [Hrejected [_ [Hkept _]]].
  split; [| split].
  - apply Hrejected. reflexivity.
  - apply Hrejected. reflexivity.
  - apply Hkept. discriminate.
Defined.

(** The delays text [1e999].  [parseFloat] gives [Infinity], which passes
    the test of [saveSettings]; the settings get the delay [Infinity], and
    what is put under the settings key holds [null] in its place, which is
    not a number. *)
Lemma overflowing_delay_is_stored_as_null :
  let w' := run (saveSettings overflowingParseFloat) overflowWorld in
  parseDelays overflowingParseFloat (tempRetryDelays (app overflowWorld))
  = [infinity]
  /\ retryDelays (settings (app w')) = [infinity]
  /\ option_map storedRetryDelays (persisted w') = Some [None]
  /\ ~ (exists stored,
          persisted w' = Some stored
          /\ Forall (fun written =>
                       exists n, written = Some n
                                 /\ PrimFloat.ltb 0%float n = true)
               (storedRetryDelays stored)).
Proof.
  intro w'.
  split; [vm_compute; reflexivity |].
  split; [vm_compute; reflexivity |].
  split; [vm_compute; reflexivity |].
  intros [stored [Hstored Hall]].
  vm_compute in Hstored. injection Hstored as <-.
  apply Forall_inv in Hall. destruct Hall as [n [Hn _]]. discriminate Hn.
Qed.

(** The examples of the specification: the input [A], blank line, [B] with
    [A] found and [B] not; and two failures followed by a success under
    [retryCount = 2] and delays [1, 2]. *)
Example two_addresses_one_found :
  let w' := run (startSearch onlyAFound neverStops) readyWorld in
  totalAddressesCount (app w') = 2
  /\ foundAddressesCount (app w') = 1
  /\ notFoundAddresses (app w') = [addressB]
  /\ labels (geoObjectsCollection (app w')) = [(1, addressA)].
Proof. vm_compute. repeat split; reflexivity. Qed.

Example third_attempt_succeeds :
  result (geocodeWithRetry failsTwice neverStops addressA) readyWorld
  = Normal (Some moscow)
  /\ effects (run (geocodeWithRetry failsTwice neverStops addressA) readyWorld)
     = [Geocode addressA true; WarnRetry addressA 0 (Some 1%float);
        Backoff (Some 1%float);
        Geocode addressA true; WarnRetry addressA 1 (Some 2%float);
        Backoff (Some 2%float);
        Geocode addressA true].
Proof. vm_compute. split; reflexivity. Qed.

(** ** The further properties at sample inputs *)

Lemma parsed_addresses_are_clean_witness :
  addressB <> []
  /\ JsStr.isWhiteSpace (hd 0%N addressB) = false
  /\ JsStr.isWhiteSpace (last addressB 0%N) = false
  /\ ~ In JsStr.newline addressB
  /\ JsStr.trim addressB = addressB.
Proof.
  apply (parsed_addresses_are_clean (addressesInput readyComponent) addressB).
  vm_compute. right. left. reflexivity.
Defined.

Lemma save_without_api_key_is_rejected_witness :
  saveSettings sampleParseFloat blankKeyWorld
  = (Normal tt, emitW (Alert msgNoApiKey) blankKeyWorld).
Proof.
  apply (save_without_api_key_is_rejected sampleParseFloat blankKeyWorld).
  - vm_compute. discriminate.
  - reflexivity.
Defined.

Lemma accepted_save_writes_form_values_witness :
  settings (app (run (saveSettings sampleParseFloat) newKeyWorld))
  = {| apiKey := JsStr.lit "other"%string; retryCount := 1;
       retryDelays := [2%float; 1%float] |}.
Proof.
  apply (accepted_save_writes_form_values sampleParseFloat newKeyWorld).
  - vm_compute. discriminate.
  - vm_compute. discriminate.
Defined.

Lemma reload_only_when_key_in_use_is_replaced_witness :
  effects (run (saveSettings sampleParseFloat) newKeyWorld)
  = effects newKeyWorld ++ [Alert msgKeyChanged; Reload].
Proof.
  apply (reload_only_when_key_in_use_is_replaced sampleParseFloat newKeyWorld).
  - vm_compute. discriminate.
  - vm_compute. discriminate.
  - split; vm_compute; discriminate.
Defined.

Lemma saving_twice_changes_nothing_more_witness :
  settings (app (run (saveSettings sampleParseFloat)
                   (run (saveSettings sampleParseFloat) newKeyWorld)))
  = settings (app (run (saveSettings sampleParseFloat) newKeyWorld)).
Proof.
  apply (saving_twice_changes_nothing_more sampleParseFloat newKeyWorld).
  - vm_compute. discriminate.
  - vm_compute. discriminate.
Defined.

Lemma open_then_save_keeps_settings_witness :
  settings (app (run (saveSettings sampleParseFloat)
                   (run (openSettings sampleNumberToString) readyWorld)))
  = settings (app readyWorld).
Proof.
  apply (open_then_save_keeps_settings sampleParseFloat sampleNumberToString
           readyWorld).
  - discriminate.
  - apply Forall_cons; [| apply Forall_cons; [| apply Forall_nil]];
      (split; [reflexivity | split; [| reflexivity]]);
      vm_compute; intros [H | []]; discriminate H.
  - discriminate.
  - reflexivity.
Defined.

Lemma resolver_returns_a_provider_reply_witness :
  exists t,
    clock readyWorld <= t
    < clock (run (geocodeWithRetry failsTwice neverStops addressA) readyWorld)
    /\ attemptReply failsTwice addressA t = Resolved (Some moscow)
    /\ (failsTwice t addressA true = Resolved (Some moscow)
        \/ (failsTwice t addressA true = Resolved None
            /\ failsTwice (S t) addressA false = Resolved (Some moscow))).
Proof.
  apply (resolver_returns_a_provider_reply failsTwice neverStops addressA
           readyWorld (Some moscow)).
  vm_compute. reflexivity.
Defined.

Lemma resolver_rides_out_a_short_outage_witness :
  result (geocodeWithRetry failsTwice neverStops addressA) readyWorld
  = Normal (Some moscow).
Proof.
  apply (resolver_rides_out_a_short_outage failsTwice neverStops addressA moscow 4
           readyWorld).
  - intro t. reflexivity.
  - reflexivity.
  - intros t Ht. exists serverError. unfold failsTwice.
    destruct (Nat.ltb_spec t 4); [split; reflexivity | lia].
  - intros t Ht. unfold failsTwice.
    destruct (Nat.ltb_spec t 4); [lia | reflexivity].
  - vm_compute. discriminate.
  - vm_compute. discriminate.
Defined.


Lemma search_ends_idle_with_one_placemark_per_found_witness :
  isSearching (app (run (startSearch onlyAFound neverStops) readyWorld)) = false
  /\ length (geoObjectsCollection
               (app (run (startSearch onlyAFound neverStops) readyWorld)))
     = foundAddressesCount (app (run (startSearch onlyAFound neverStops) readyWorld)).
Proof.
  apply (search_ends_idle_with_one_placemark_per_found onlyAFound neverStops
           readyWorld).
  reflexivity.
Defined.

Lemma stale_mapError_makes_any_failure_fatal_witness :
  notFoundAddresses (app (run (startSearch othersFail neverStops) staleErrorLongWorld))
  = [addressB]
  /\ foundAddressesCount
       (app (run (startSearch othersFail neverStops) staleErrorLongWorld)) = 1.
Proof.
  pose proof (stale_mapError_makes_any_failure_fatal othersFail neverStops
                [addressA] addressB [addressA] staleErrorLongWorld
                (ProviderFailure serverError)
                eq_refl eq_refl eq_refl eq_refl eq_refl) as [Hnot [Hfound _]].
  split; [exact Hnot | exact Hfound].
Defined.

Lemma negative_retryCount_asks_nothing_witness :
  geocodeWithRetry alwaysFound neverStops addressA noAttemptWorld
  = (Abrupt Null, emitW (ErrorExhausted addressA Null) noAttemptWorld).
Proof.
  apply (negative_retryCount_asks_nothing alwaysFound neverStops addressA
           noAttemptWorld).
  vm_compute. reflexivity.
Defined.

Lemma timeless_provider_decides_the_results_witness :
  notFoundAddresses (app (run (startSearch onlyAFound neverStops) readyWorld))
  = [addressB]
  /\ foundAddressesCount (app (run (startSearch onlyAFound neverStops) readyWorld))
     = 1.
Proof.
  assert (Hharmless : Forall (harmless onlyAFound (retryCount (settings (app readyWorld))))
                        (parseAddresses (addressesInput (app readyWorld)))).
  { vm_compute. repeat constructor. }
  pose proof (timeless_provider_decides_the_results onlyAFound neverStops readyWorld
                (fun t address bounded => eq_refl) (fun t => eq_refl)
                eq_refl eq_refl Hharmless) as [_ [Hnot [Hfound _]]].
  split; [exact Hnot | exact Hfound].
Defined.

Lemma repeated_search_gives_the_same_component_witness :
  app (run (startSearch onlyAFound neverStops)
         (run (startSearch onlyAFound neverStops) readyWorld))
  = app (run (startSearch onlyAFound neverStops) readyWorld).
Proof.
  apply (repeated_search_gives_the_same_component onlyAFound neverStops readyWorld).
  - intros t address bounded. reflexivity.
  - intro t. reflexivity.
  - reflexivity.
  - reflexivity.
  - vm_compute. repeat constructor.
Defined.

Lemma polling_gives_up_at_the_31st_firing_witness :
  initializeMapWithRetry (fun _ => false) (ret tt) (31 + 0) initialWorld
  = (Normal true,
     modifyW (set_mapError (Some msgYmapsTimeout)) (Nat.iter 31 tickW initialWorld)).
Proof.
  apply (polling_gives_up_at_the_31st_firing (fun _ => false) (ret tt) initialWorld).
  intros j Hj. reflexivity.
Defined.

Lemma polling_starts_the_map_at_the_first_ready_firing_witness :
  initializeMapWithRetry (fun t => (3 <=? t)%nat) (ret tt) (3 + 0) initialWorld
  = (ret tt;; ret true) (Nat.iter 3 tickW initialWorld).
Proof.
  apply (polling_starts_the_map_at_the_first_ready_firing
           (fun t => (3 <=? t)%nat) (ret tt) 3 initialWorld).
  - lia.
  - intros j Hj. apply Nat.leb_gt. simpl. lia.
  - reflexivity.
Defined.
